(** * riderOP: the rule-based ride extraction pipeline

    A shallow embedding of the three extraction modules of the
    repository,

      - [classify_and_place.py]  (gazetteer, place matcher, directional
        pair extractor, category classifier),
      - [get_date_time.py]       (date / time extractor),
      - [offering_seeking.py]    (intent classifier),

    together with the properties stated about them.

    Conventions.  A Python [str] is a [list ascii]; the characters with
    code above 127 stand for the bytes of non-ASCII text (the arrow of
    the connector cue is its three UTF-8 bytes) and are neither
    letters, digits nor whitespace.  A Python [dict] is an association
    list in insertion order; a Python [set] is the list of its members
    in insertion order, and the order in which Python iterates over it
    is a parameter of the model ([PySetOrder]). *)

From Stdlib Require Import String Ascii List Arith Bool Lia Permutation.
Import ListNotations.

Set Warnings "-abstract-large-number".
Open Scope string_scope.
Open Scope list_scope.
Open Scope nat_scope.

(* ================================================================== *)
(** * Python strings *)

Module PyStr.

Definition str := list ascii.

(** A string literal. *)
Definition py (s : string) : str := list_ascii_of_string s.

Fixpoint str_eqb (a b : str) : bool :=
  match a, b with
  | [], [] => true
  | x :: a', y :: b' => Ascii.eqb x y && str_eqb a' b'
  | _, _ => false
  end.

Definition code (c : ascii) : nat := nat_of_ascii c.

Definition between (lo hi n : nat) : bool := (lo <=? n) && (n <=? hi).

(** [\s] and [str.isspace]: tab, newline, vertical tab, form feed,
    carriage return, the four separators 28..31 and the space. *)
Definition is_space (c : ascii) : bool :=
  between 9 13 (code c) || between 28 32 (code c).

Definition is_digit (c : ascii) : bool := between 48 57 (code c).
Definition is_upper (c : ascii) : bool := between 65 90 (code c).
Definition is_lower (c : ascii) : bool := between 97 122 (code c).
Definition is_alnum (c : ascii) : bool := is_digit c || is_upper c || is_lower c.

(** [\w]: a letter, a digit or the underscore. *)
Definition is_word (c : ascii) : bool := is_alnum c || (code c =? 95).

Definition lower_char (c : ascii) : ascii :=
  if is_upper c then ascii_of_nat (code c + 32) else c.

(** [s.lower()] *)
Definition lower (s : str) : str := map lower_char s.

(** [s.strip()] *)
Fixpoint lstrip (s : str) : str :=
  match s with
  | c :: t => if is_space c then lstrip t else s
  | [] => []
  end.

Definition strip (s : str) : str := rev (lstrip (rev (lstrip s))).

(** [s.split(sep)] for a one-character separator: never empty. *)
Fixpoint split_on (sep : ascii) (s : str) : list str :=
  match s with
  | [] => [[]]
  | c :: t =>
      if Ascii.eqb c sep then [] :: split_on sep t
      else match split_on sep t with
           | p :: ps => (c :: p) :: ps
           | [] => [[c]]
           end
  end.

(** [s.split()]: the maximal runs of non-whitespace characters. *)
Fixpoint split_ws_from (cur : str) (s : str) : list str :=
  match s with
  | [] => match cur with [] => [] | _ => [rev cur] end
  | c :: t =>
      if is_space c
      then match cur with
           | [] => split_ws_from [] t
           | _ => rev cur :: split_ws_from [] t
           end
      else split_ws_from (c :: cur) t
  end.

Definition split (s : str) : list str := split_ws_from [] s.

(** [sep.join(l)] *)
Fixpoint join (sep : str) (l : list str) : str :=
  match l with
  | [] => []
  | [x] => x
  | x :: t => x ++ sep ++ join sep t
  end.

(** [l[a:b]] for [0 <= a]. *)
Definition slice {A} (a b : nat) (l : list A) : list A :=
  firstn (b - a) (skipn a l).

(** [p in s] *)
Fixpoint prefixb (p s : str) : bool :=
  match p, s with
  | [], _ => true
  | x :: p', y :: s' => Ascii.eqb x y && prefixb p' s'
  | _ :: _, [] => false
  end.

Fixpoint contains (p s : str) : bool :=
  prefixb p s || match s with [] => false | _ :: t => contains p t end.

(** Truth value of a string or of [None]. *)
Definition truthy (o : option str) : bool :=
  match o with
  | Some (_ :: _) => true
  | _ => false
  end.

End PyStr.
Import PyStr.

(* ================================================================== *)
(** * Python dictionaries and sets of strings *)

Module PyDict.

Definition dict := list (str * str).

(** [d[k] = v]: an existing key keeps its place, a new one goes last. *)
Fixpoint dict_set (k v : str) (d : dict) : dict :=
  match d with
  | [] => [(k, v)]
  | (k', v') :: t =>
      if str_eqb k' k then (k', v) :: t else (k', v') :: dict_set k v t
  end.

Fixpoint dict_get (k : str) (d : dict) : option str :=
  match d with
  | [] => None
  | (k', v') :: t => if str_eqb k' k then Some v' else dict_get k t
  end.

Definition mem (x : str) (s : list str) : bool := existsb (str_eqb x) s.

(** [s.add(x)] on the members in insertion order. *)
Definition set_add (x : str) (s : list str) : list str :=
  if mem x s then s else s ++ [x].

(** The order in which [list(s)] enumerates a set: some arrangement of
    its members, which the language leaves open. *)
Record PySetOrder := {
  set_iter : list str -> list str;
  set_iter_perm : forall s, Permutation (set_iter s) s
}.

Definition insertion_order : PySetOrder :=
  {| set_iter := fun s => s; set_iter_perm := fun s => Permutation_refl s |}.

Definition reverse_order : PySetOrder :=
  {| set_iter := fun s => rev s;
     set_iter_perm := fun s => Permutation_sym (Permutation_rev s) |}.

End PyDict.
Import PyDict.

(* ================================================================== *)
(** * The regular expressions of module [re]

    A backtracking matcher with Python's priorities: alternatives are
    tried left to right, [?] and [*] are greedy, [search] takes the
    leftmost position at which the pattern matches.  Only the
    constructs the three modules use are present. *)

Module Re.

Inductive regex :=
| Eps
| Chr (c : ascii)
| Cls (f : ascii -> bool)
| Bnd
| Cat (r1 r2 : regex)
| Alt (r1 r2 : regex)
| Opt (r : regex)
| Star (r : regex)
| Grp (n : nat) (r : regex).

(** A position in the subject: the character before it, the text
    after it, and the groups captured so far. *)
Record mstate := {
  prev : option ascii;
  rest : str;
  caps : list (nat * str)
}.

Definition word_opt (o : option ascii) : bool :=
  match o with Some c => is_word c | None => false end.

(** [\b]: exactly one of the two neighbours is a word character. *)
Definition at_boundary (s : mstate) : bool :=
  xorb (word_opt (prev s)) (word_opt (hd_error (rest s))).

Definition step_if (f : ascii -> bool) (k : mstate -> option mstate)
           (s : mstate) : option mstate :=
  match rest s with
  | c :: t => if f c then k {| prev := Some c; rest := t; caps := caps s |}
              else None
  | [] => None
  end.

(** The text between two positions of one subject. *)
Definition consumed (s s' : mstate) : str :=
  firstn (length (rest s) - length (rest s')) (rest s).

Definition set_cap (n : nat) (v : str) (s : mstate) : mstate :=
  {| prev := prev s; rest := rest s; caps := (n, v) :: caps s |}.

Definition or_else {A} (a : option A) (b : unit -> option A) : option A :=
  match a with Some x => Some x | None => b tt end.

Fixpoint run (r : regex) (k : mstate -> option mstate) (s : mstate)
  : option mstate :=
  match r with
  | Eps => k s
  | Chr c => step_if (Ascii.eqb c) k s
  | Cls f => step_if f k s
  | Bnd => if at_boundary s then k s else None
  | Cat r1 r2 => run r1 (run r2 k) s
  | Alt r1 r2 => or_else (run r1 k s) (fun _ => run r2 k s)
  | Opt r1 => or_else (run r1 k s) (fun _ => k s)
  | Star r1 =>
      (fix loop (fuel : nat) (s0 : mstate) : option mstate :=
         match fuel with
         | 0 => k s0
         | S fuel' =>
             or_else
               (run r1 (fun s1 =>
                          if length (rest s1) <? length (rest s0)
                          then loop fuel' s1 else None) s0)
               (fun _ => k s0)
         end) (length (rest s)) s
  | Grp n r1 => run r1 (fun s1 => k (set_cap n (consumed s s1) s1)) s
  end.

(** [re.search]: the first match, scanning start positions from the
    left. *)
Fixpoint search_from (r : regex) (p : option ascii) (s : str)
  : option mstate :=
  match run r Some {| prev := p; rest := s; caps := [] |} with
  | Some m => Some m
  | None => match s with
            | [] => None
            | c :: t => search_from r (Some c) t
            end
  end.

Definition search (r : regex) (s : str) : option mstate :=
  search_from r None s.

(** [re.match] followed by the test that the whole subject was used. *)
Definition fullmatch (r : regex) (s : str) : option mstate :=
  match run r Some {| prev := None; rest := s; caps := [] |} with
  | Some m => match rest m with [] => Some m | _ => None end
  | None => None
  end.

Fixpoint cap_get (n : nat) (c : list (nat * str)) : option str :=
  match c with
  | [] => None
  | (n', v) :: t => if n' =? n then Some v else cap_get n t
  end.

(** [m.groups()] of a pattern with [n] groups. *)
Definition groups (n : nat) (m : mstate) : list (option str) :=
  map (fun i => cap_get i (caps m)) (seq 1 n).

(** Pattern building. *)
Definition lit (s : string) : regex :=
  fold_right (fun c r => Cat (Chr c) r) Eps (py s).

Definition lit_str (s : str) : regex :=
  fold_right (fun c r => Cat (Chr c) r) Eps s.

Fixpoint alts (l : list string) : regex :=
  match l with
  | [] => Cls (fun _ => false)
  | [x] => lit x
  | x :: t => Alt (lit x) (alts t)
  end.

Fixpoint cats (l : list regex) : regex :=
  match l with
  | [] => Eps
  | [r] => r
  | r :: t => Cat r (cats t)
  end.

Definition Plus (r : regex) : regex := Cat r (Star r).
Definition digit : regex := Cls is_digit.        (* \d *)
Definition ws : regex := Cls is_space.           (* \s *)
Definition d12 : regex := Cat digit (Opt digit). (* \d{1,2} *)
Definition d2 : regex := Cat digit digit.        (* \d{2} *)
Definition one_of (s : string) : regex :=
  Cls (fun c => existsb (Ascii.eqb c) (py s)).

(** [rf"\b{re.escape(p)}\b"] *)
Definition whole_word (p : str) : regex := cats [Bnd; lit_str p; Bnd].

End Re.
Import Re.

(* ================================================================== *)
(** * classify_and_place.py *)

Module ClassifyAndPlace.

(** ** [load_places]

    The file is the list of its lines.  Each line is stripped, cut at
    the equals signs, and every part, stripped and lowered, becomes a
    key whose value is the first part. *)

Definition load_line (place_map : dict) (line : str) : dict :=
  let parts := map (fun p => lower (strip p)) (split_on "="%char (strip line)) in
  let canonical := hd [] parts in
  fold_left (fun pm synonym => dict_set synonym canonical pm) parts place_map.

Definition load_places (file : list str) : dict :=
  fold_left load_line file [].

(** ** [normalize_text] *)

(** [re.sub(r"[^a-zA-Z0-9\s]", "", text)] *)
Definition strip_punct (text : str) : str :=
  filter (fun c => is_alnum c || is_space c) text.

Definition normalize_text (text : str) : str := lower (strip_punct text).

(** [re.search(rf"\b{re.escape(place)}\b", text)] as a truth value. *)
Definition place_in (place text : str) : bool :=
  match search (whole_word place) text with
  | Some _ => true
  | None => false
  end.

(** ** [count_unique_places]

    The loop runs over the keys in insertion order; [place_map[place]]
    is the value stored with the key. *)
Definition count_unique_places (text : str) (place_map : dict) : list str :=
  fold_left
    (fun found_places kv =>
       if place_in (fst kv) text then set_add (snd kv) found_places
       else found_places)
    place_map [].

(** ** [extract_first_pair] *)

(** [next((place_map[p] for p in place_map if re.search(..., s)), None)] *)
Definition place_match (place_map : dict) (s : str) : option str :=
  option_map snd (find (fun kv => place_in (fst kv) s) place_map).

Definition word (words : list str) (i : nat) : str := nth i words [].

(** [[" ".join(words[lo k : hi k]) for k in range(1, 4) if guard k]] *)
Definition candidates (words : list str) (lo hi : nat -> nat)
           (guard : nat -> bool) : list str :=
  map (fun k => join (py " ") (slice (lo k) (hi k) words))
      (filter guard [1; 2; 3]).

(** The arrow U+2192, as its UTF-8 bytes. *)
Definition arrow : str := [ascii_of_nat 226; ascii_of_nat 134; ascii_of_nat 146].

(** [w in {"to", "-", arrow}] *)
Definition connector (w : str) : bool :=
  str_eqb w (py "to") || str_eqb w (py "-") || str_eqb w arrow.

Definition synthetic_home_base : str := py "state college*".

(** The [if]/[elif] chain at position [i]: the two candidate lists, or
    [None] for [continue]. *)
Definition cue (words : list str) (i : nat) : option (list str * list str) :=
  let n := length words in
  if str_eqb (word words i) (py "from") && (i + 2 <? n)
     && str_eqb (word words (i + 2)) (py "to")
  then
    Some (candidates words (fun _ => i + 1) (fun k => i + 2 + k)
                     (fun k => i + 2 + k <=? n),
          candidates words (fun _ => i + 3) (fun k => i + 3 + k)
                     (fun k => i + 3 + k <=? n))
  else if str_eqb (word words i) (py "from")
  then
    let src_candidates :=
      candidates words (fun _ => i + 1) (fun k => i + 1 + k)
                 (fun k => i + 1 + k <=? n) in
    let to_idx := i + 1 + length (split (hd [] src_candidates)) in
    if (to_idx <? n) && str_eqb (word words to_idx) (py "to")
    then Some (src_candidates,
               candidates words (fun _ => to_idx + 1) (fun k => to_idx + 1 + k)
                          (fun k => to_idx + 1 + k <=? n))
    else Some (src_candidates, [])
  else if connector (word words (i + 1))
  then
    Some (candidates words (fun k => i - k) (fun _ => i + 1)
                     (fun k => k <=? i),
          candidates words (fun _ => i + 2) (fun k => i + 2 + k)
                     (fun k => i + 2 + k <=? n))
  else None.

(** The first element of a list on which a loop body returns. *)
Fixpoint first_some {A B} (f : A -> option B) (l : list A) : option B :=
  match l with
  | [] => None
  | x :: t => match f x with
              | Some y => Some y
              | None => first_some f t
              end
  end.

(** The body of the two nested [for] loops. *)
Definition test_pair (place_map : dict) (src dst : str) : option (str * str) :=
  let src_match := place_match place_map src in
  let dst_match := place_match place_map dst in
  match src_match, dst_match with
  | Some a, Some b =>
      if truthy src_match && truthy dst_match && negb (str_eqb a b)
      then Some (a, b) else None
  | _, _ => None
  end.

Definition scan_pairs (place_map : dict) (srcs dsts : list str)
  : option (str * str) :=
  first_some (fun src => first_some (test_pair place_map src) dsts) srcs.

(** The block under the "driving to [place]" comment. *)
Definition bare_to (place_map : dict) (words : list str) (i : nat)
  : option (str * str) :=
  if str_eqb (word words i) (py "to")
  then
    let n := length words in
    first_some
      (fun dst =>
         let dst_match := place_match place_map dst in
         match dst_match with
         | Some d => if truthy dst_match then Some (synthetic_home_base, d)
                     else None
         | None => None
         end)
      (candidates words (fun _ => i + 1) (fun k => i + 1 + k)
                  (fun k => i + 1 + k <=? n))
  else None.

(** One turn of the loop over [i]: [Some] when it returns. *)
Definition scan_at (place_map : dict) (words : list str) (i : nat)
  : option (str * str) :=
  match cue words i with
  | None => None
  | Some (src_candidates, dst_candidates) =>
      match scan_pairs place_map src_candidates dst_candidates with
      | Some p => Some p
      | None => bare_to place_map words i
      end
  end.

Definition tokens (text : str) : list str := split (strip_punct (lower text)).

Definition extract_first_pair (text : str) (place_map : dict)
  : option str * option str :=
  let words := tokens text in
  match first_some (scan_at place_map words) (seq 0 (length words - 2)) with
  | Some (o, d) => (Some o, Some d)
  | None => (None, None)
  end.

(** ** [classify_messages], one message at a time *)

Inductive category := ride | general.

Definition is_ride (c : category) : bool :=
  match c with ride => true | general => false end.

(** The category and the found-places set as the [if]/[elif] chain
    leaves them. *)
Definition categorize (place_map : dict) (msg : str) (origin destination : option str)
  : category * list str :=
  let text := normalize_text msg in
  let found_places := count_unique_places text place_map in
  let has_to := place_in (py "to") text in
  let has_from := place_in (py "from") text in
  if truthy origin && truthy destination then (ride, found_places)
  else if has_to && has_from && (2 <=? length found_places)
  then (ride, found_places)
  else if has_to && negb has_from && (1 <=? length found_places)
  then
    let found_places := set_add synthetic_home_base found_places in
    if 2 <=? length found_places then (ride, found_places)
    else (general, found_places)
  else (general, found_places).

Definition classify_message (O : PySetOrder) (place_map : dict) (msg : str)
  : category * option str * option str :=
  let '(origin, destination) := extract_first_pair msg place_map in
  let '(category, found_places) := categorize place_map msg origin destination in
  if negb (truthy origin) && is_ride category
  then
    match set_iter O found_places with
    | a :: b :: _ => (category, Some a, Some b)
    | _ => (category, origin, destination)
    end
  else (category, origin, destination).

Definition classify_messages (O : PySetOrder) (messages : list str)
           (places_file : list str)
  : list (category * option str * option str) :=
  let place_map := load_places places_file in
  map (classify_message O place_map) messages.

End ClassifyAndPlace.
Import ClassifyAndPlace.

(* ================================================================== *)
(** * Calendar dates of module [datetime] *)

Module Calendar.

Record date := { year : nat; month : nat; day : nat }.

Definition is_leap (y : nat) : bool :=
  (y mod 4 =? 0) && (negb (y mod 100 =? 0) || (y mod 400 =? 0)).

Definition days_in_month (y m : nat) : nat :=
  match m with
  | 2 => if is_leap y then 29 else 28
  | 4 | 6 | 9 | 11 => 30
  | _ => 31
  end.

(** The dates [datetime] accepts: years 1 to 9999. *)
Definition valid (d : date) : bool :=
  between 1 9999 (year d) && between 1 12 (month d)
  && between 1 (days_in_month (year d) (month d)) (day d).

(** An exception of the interpreter that the modules do not catch. *)
Inductive outcome (A : Type) :=
| Returned (a : A)
| OverflowError.
Arguments Returned {A} a.
Arguments OverflowError {A}.

(** [d + datetime.timedelta(days=1)]: raises past 9999-12-31. *)
Definition add_day (d : date) : outcome date :=
  if day d <? days_in_month (year d) (month d)
  then Returned {| year := year d; month := month d; day := day d + 1 |}
  else if month d <? 12
  then Returned {| year := year d; month := month d + 1; day := 1 |}
  else if year d <? 9999
  then Returned {| year := year d + 1; month := 1; day := 1 |}
  else OverflowError.

Definition digit_char (n : nat) : ascii := ascii_of_nat (48 + n mod 10).

Definition pad2 (n : nat) : str := [digit_char (n / 10); digit_char n].

Definition pad4 (n : nat) : str :=
  [digit_char (n / 1000); digit_char (n / 100); digit_char (n / 10);
   digit_char n].

(** [d.strftime("%Y-%m-%d")], the year written with four digits as the
    library documents the directive (below year 1000 the C library of
    some platforms leaves the leading zeros out). *)
Definition strftime_ymd (d : date) : str :=
  pad4 (year d) ++ py "-" ++ pad2 (month d) ++ py "-" ++ pad2 (day d).

(** [d.strftime("%B")] *)
Definition month_name (m : nat) : str :=
  nth (m - 1)
      (map py ["January"; "February"; "March"; "April"; "May"; "June";
               "July"; "August"; "September"; "October"; "November";
               "December"]) [].

(** [int(s)] on a capture of the format below: digits, or a space and a
    digit. *)
Definition int_of (s : str) : nat :=
  fold_left (fun n c => if is_digit c then 10 * n + (code c - 48) else n) s 0.

Definition range_cls (lo hi : nat) : regex := Cls (fun c => between lo hi (code c)).

(** The pattern [strptime] compiles ["%Y-%m-%d"] to:
    [(\d\d\d\d)-(1[0-2]|0[1-9]|[1-9])-(3[01]|[12]\d|0[1-9]|[1-9]| [1-9])] *)
Definition ymd_regex : regex :=
  cats [Grp 1 (cats [digit; digit; digit; digit]);
        Chr "-";
        Grp 2 (Alt (Cat (Chr "1") (range_cls 48 50))
              (Alt (Cat (Chr "0") (range_cls 49 57))
                   (range_cls 49 57)));
        Chr "-";
        Grp 3 (Alt (Cat (Chr "3") (range_cls 48 49))
              (Alt (Cat (range_cls 49 50) digit)
              (Alt (Cat (Chr "0") (range_cls 49 57))
              (Alt (range_cls 49 57)
                   (Cat (Chr " ") (range_cls 49 57))))))].

(** [datetime.datetime.strptime(s, "%Y-%m-%d")]; [None] is
    [ValueError]: no match, text left over, or no such day. *)
Definition strptime_ymd (s : str) : option date :=
  match fullmatch ymd_regex s with
  | None => None
  | Some m =>
      match groups 3 m with
      | [Some y; Some mo; Some d] =>
          let dt := {| year := int_of y; month := int_of mo; day := int_of d |} in
          if valid dt then Some dt else None
      | _ => None
      end
  end.

End Calendar.
Import Calendar.

(* ================================================================== *)
(** * get_date_time.py *)

Module GetDateTime.

Definition months_full : list string :=
  ["january"; "february"; "march"; "april"; "may"; "june"; "july";
   "august"; "september"; "october"; "november"; "december"].

Definition months_abbr : list string :=
  ["jan"; "feb"; "mar"; "apr"; "may"; "jun"; "jul"; "aug"; "sep"; "oct";
   "nov"; "dec"].

Definition ordinal : regex := alts ["st"; "nd"; "rd"; "th"].
Definition on_opt : regex := Opt (Cat (lit "on") ws).
Definition ampm : regex := alts ["am"; "pm"].
Definition qualifier : regex := Opt (alts ["at"; "before"; "around"; "by"]).

(** Each pattern with its number of groups. *)
Definition date_patterns : list (regex * nat) :=
  [ (cats [Bnd; on_opt; Grp 1 d12; ordinal; Opt (Cat (Plus ws) (lit "of"));
           Star ws; Opt (Grp 2 (alts months_full)); Bnd], 2);
    (cats [Bnd; on_opt; Grp 1 (alts months_full); Star ws; Grp 2 d12;
           Opt ordinal; Bnd], 2);
    (cats [Bnd; on_opt; Grp 1 d12; Opt ordinal; Star ws;
           Opt (Grp 2 (alts months_abbr)); Bnd], 2);
    (cats [Bnd; on_opt; Grp 1 (alts months_abbr); Star ws; Grp 2 d12;
           Opt ordinal; Bnd], 2);
    (cats [Bnd; Grp 1 d12; Opt ordinal; Star ws; Alt (lit "-") (lit "to");
           Star ws; Grp 2 d12; Opt ordinal; Star ws;
           Opt (Grp 3 (alts (months_full ++ months_abbr))); Bnd], 3);
    (cats [Bnd; Grp 1 d12; Opt ordinal; Star ws;
           Opt (Grp 2 (alts (months_full ++ months_abbr))); Bnd], 2) ].

Definition time_patterns : list (regex * nat) :=
  [ (cats [Bnd; Grp 1 d12; Chr ":"; Grp 2 d2; Star ws; Grp 3 ampm; Bnd], 3);
    (cats [Bnd; Grp 1 d12; Star ws; one_of ":."; Star ws; Grp 2 d2; Star ws;
           Grp 3 ampm; Bnd], 3);
    (cats [Bnd; Grp 1 d12; Star ws; Grp 2 ampm; Bnd], 2);
    (cats [Bnd; Grp 1 d12; Chr ":"; Grp 2 d2; Bnd], 2);
    (cats [Bnd;
           Grp 1 (alts ["morning"; "afternoon"; "evening"; "tonight"; "night"]);
           Bnd], 1) ].

Definition fallback_patterns : list (regex * nat) :=
  [ (cats [Bnd; qualifier; Star ws; Grp 1 d12; Chr ":"; Grp 2 d2; Star ws;
           Grp 3 ampm; Bnd], 3);
    (cats [Bnd; qualifier; Star ws; Grp 1 d12; Star ws; one_of ":."; Star ws;
           Grp 2 d2; Star ws; Grp 3 ampm; Bnd], 3);
    (cats [Bnd; qualifier; Star ws; Grp 1 d12; Chr ":"; Grp 2 d2; Grp 3 ampm;
           Bnd], 3);
    (cats [Bnd; qualifier; Star ws; Grp 1 d12; Grp 2 ampm; Bnd], 2);
    (cats [Bnd; qualifier; Star ws; Grp 1 d12; one_of ":."; Grp 2 d2;
           Opt (Star ws); Grp 3 ampm; Bnd], 3) ].

(** The groups of the first pattern of the list that matches. *)
Definition first_match (patterns : list (regex * nat)) (msg : str)
  : option (list (option str)) :=
  first_some
    (fun pn => option_map (groups (snd pn)) (search (fst pn) msg))
    patterns.

(** A group that took no part in the match reads as the empty string
    where the source joins groups. *)
Definition text_of (g : option str) : str :=
  match g with Some s => s | None => [] end.

(** [list(filter(None, groups))] *)
Definition filter_none (gs : list (option str)) : list str :=
  map text_of (filter (fun g => truthy g) gs).

Definition fallback_time_extraction (message : str) : option str :=
  let msg := lower message in
  match first_match fallback_patterns msg with
  | Some gs =>
      Some (join (py ":") (map text_of (firstn 2 gs))
            ++ (if length gs =? 3 then py " " ++ text_of (nth 2 gs None)
                else []))
  | None => None
  end.

(** The reference date: [wa_date] read as year-month-day, else the
    clock's date. *)
Definition reference_date (today : date) (wa_date : str) : date :=
  match strptime_ymd wa_date with
  | Some d => d
  | None => today
  end.

Definition extract_datetime_info (today : date) (message wa_date : str)
  : outcome (option str * option str) :=
  let msg := lower message in
  let wa_dt := reference_date today wa_date in
  let implied_month := month_name (month wa_dt) in
  let ride_date :=
    match first_match date_patterns msg with
    | Some gs =>
        let parts := filter_none gs in
        Some (match parts with
              | [a] => a ++ py " " ++ implied_month
              | [a; b] => a ++ py " " ++ b
              | [a; b; c] => a ++ py " to " ++ b ++ py " " ++ c
              | _ => join (py " ") parts
              end)
    | None => None
    end in
  let ride_time :=
    match first_match time_patterns msg with
    | Some gs =>
        let parts := filter_none gs in
        Some (strip
                (if 2 <=? length parts
                 then join (py ":") (firstn 2 parts)
                      ++ (if length parts =? 3 then py " " ++ nth 2 parts []
                          else [])
                 else hd [] parts))
    | None => None
    end in
  let ride_time :=
    if negb (truthy ride_time) then fallback_time_extraction msg
    else ride_time in
  if contains (py "today") msg
  then Returned (Some (strftime_ymd wa_dt), ride_time)
  else if contains (py "tomorrow") msg
  then match add_day wa_dt with
       | Returned d => Returned (Some (strftime_ymd d), ride_time)
       | OverflowError => OverflowError
       end
  else Returned (ride_date, ride_time).

(** [extract_datetime_for_rides_only], one row. *)
Definition extract_datetime_for_ride (today : date) (cat : category)
           (message wa_date : str) : outcome (option str * option str) :=
  if is_ride cat then extract_datetime_info today message wa_date
  else Returned (None, None).

End GetDateTime.
Import GetDateTime.

(* ================================================================== *)
(** * offering_seeking.py *)

Module OfferingSeeking.

Inductive ride_type := offering | seeking | unknown.

Definition offer_keywords : list str :=
  map py ["offering"; "available"; "can give"; "have space"; "driving to";
          "ride from"].

Definition seek_keywords : list str :=
  map py ["anyone going"; "looking for"; "need a ride"; "anyone driving";
          "want to join"; "ride to"].

Definition classify_ride_type (msg : str) : ride_type :=
  let msg_lower := lower msg in
  if existsb (fun phrase => contains phrase msg_lower) offer_keywords
  then offering
  else if existsb (fun phrase => contains phrase msg_lower) seek_keywords
  then seeking
  else unknown.

(** [classify_ride_type_for_rides], one row; [None] is the empty
    string of the other categories. *)
Definition classify_ride_type_for_ride (cat : category) (message : str)
  : option ride_type :=
  if is_ride cat then Some (classify_ride_type message) else None.

End OfferingSeeking.
Import OfferingSeeking.

(* ================================================================== *)
(** * One message through the three stages *)

Record ExtractionResult := {
  res_category : category;
  res_origin : option str;
  res_destination : option str;
  res_ride_date : option str;
  res_ride_time : option str;
  res_ride_type : option ride_type
}.

(** The three scripts go over the log row by row: the classifier adds
    category, origin and destination; the other two read the category
    and fill date, time and ride type for the rows of category ride.
    A place that is the empty string is carried here as the classifier
    sets it; in the csv file between the scripts it reads back as
    missing. *)
Definition process_message (O : PySetOrder) (place_map : dict) (today : date)
           (message wa_date : str) : outcome ExtractionResult :=
  let '(cat, origin, destination) := classify_message O place_map message in
  match extract_datetime_for_ride today cat message wa_date with
  | Returned (ride_date, ride_time) =>
      Returned {| res_category := cat;
                  res_origin := origin;
                  res_destination := destination;
                  res_ride_date := ride_date;
                  res_ride_time := ride_time;
                  res_ride_type := classify_ride_type_for_ride cat message |}
  | OverflowError => OverflowError
  end.

(** The gazetteer of the scenarios. *)
Definition scenario_places : list str :=
  [py "state college = sc = happy valley"; py "pittsburgh = pgh"].

(** The reference date of the scenarios, and the day after. *)
Definition march_1 : date := {| year := 2024; month := 3; day := 1 |}.
Definition march_2 : date := {| year := 2024; month := 3; day := 2 |}.

(** A line that holds a newline only. *)
Definition blank_line : str := [ascii_of_nat 10].

(** The two messages of the scenarios. *)
Definition driving_message : str :=
  py "driving from SC to Pittsburgh tomorrow at 6:30pm".
Definition going_message : str := py "anyone going to pgh this weekend?".




(* ================================================================== *)
(** * Vocabulary of the properties *)

(** Case-insensitive occurrence: some stretch of the text reads as the
    phrase once lowered. *)
Definition occurs_ci (phrase text : str) : Prop :=
  exists pre mid post, text = pre ++ mid ++ post /\ lower mid = phrase.

(** The first two members of an enumeration of a set. *)
Definition first_two (l : list str) : option (str * str) :=
  match l with
  | a :: b :: _ => Some (a, b)
  | _ => None
  end.

(** The last character of a string, if any. *)
Definition last_char (s : str) : option ascii := hd_error (rev s).

(** A word boundary between two neighbours. *)
Definition boundary (a b : option ascii) : bool :=
  xorb (word_opt a) (word_opt b).

(** [p] stands in [pre ++ p ++ post] as a whole word: a word boundary
    before it and one after it. *)
Definition whole_word_at (p pre post : str) : Prop :=
  boundary (last_char pre) (hd_error (p ++ post)) = true
  /\ boundary (last_char (pre ++ p)) (hd_error post) = true.

(** The parts of a gazetteer line as [load_line] registers them. *)
Definition line_parts (line : str) : list str :=
  map (fun p => lower (strip p)) (split_on "="%char (strip line)).

(** The keys of a dictionary, in insertion order. *)
Definition keys (d : dict) : list str := map fst d.

(** A string as the gazetteer stores it: lower-case, with no whitespace
    around it. *)
Definition stored_form (s : str) : Prop := lower s = s /\ strip s = s.

(** The invariant of the loaded map: entries in stored form, and every value
    a key. *)
Definition well_kept (d : dict) : Prop :=
  forall k v, In (k, v) d ->
              stored_form k /\ stored_form v /\ In v (keys d).

(** The neighbour of a word on the side of a text's edge or of a
    whitespace character. *)
Definition edge_or_space (o : option ascii) : Prop :=
  match o with
  | Some c => is_space c = true
  | None => True
  end.

(** Every character, by code. *)
Definition all_chars : list ascii := map ascii_of_nat (seq 0 256).

(** A sufficient test that every match of a pattern takes up a
    character of the class [f]. *)
Fixpoint must_eat (f : ascii -> bool) (r : regex) : bool :=
  match r with
  | Eps | Bnd | Opt _ | Star _ => false
  | Chr c => f c
  | Cls g => forallb (fun c => implb (g c) (f c)) all_chars
  | Cat r1 r2 => must_eat f r1 || must_eat f r2
  | Alt r1 r2 => must_eat f r1 && must_eat f r2
  | Grp _ r1 => must_eat f r1
  end.

(** [a] is what is left of [b] behind some position. *)
Definition suffix_of (a b : str) : Prop := exists l, b = l ++ a.

(** The day-part words of the last time pattern. *)
Definition day_parts : list string :=
  ["morning"; "afternoon"; "evening"; "tonight"; "night"].

(** The last time pattern. *)
Definition day_part_pattern : regex :=
  cats [Bnd; Grp 1 (alts day_parts); Bnd].

(** The last day [datetime] knows. *)
Definition last_day : date := {| year := 9999; month := 12; day := 31 |}.

(* ================================================================== *)
(** * Strings: equality, substrings, lowering *)

Section StringFacts.

Lemma str_eqb_eq (a b : str) : str_eqb a b = true <-> a = b.
Proof.
  revert b; induction a as [|x a IH]; intros [|y b]; simpl;
    try (split; [discriminate | intros E; discriminate E]).
  - split; reflexivity.
  - rewrite andb_true_iff, Ascii.eqb_eq, IH.
    split; [intros [-> ->]; reflexivity | intros E; injection E; auto].
Qed.

Lemma str_eqb_refl (a : str) : str_eqb a a = true.
Proof. apply str_eqb_eq; reflexivity. Qed.

Lemma str_eqb_neq (a b : str) : str_eqb a b = false <-> a <> b.
Proof.
  rewrite <- str_eqb_eq. destruct (str_eqb a b); split; congruence.
Qed.

Lemma prefixb_spec (p s : str) :
  prefixb p s = true <-> exists post, s = p ++ post.
Proof.
  revert s; induction p as [|x p IH]; intros s; simpl.
  - split; [intros _; exists s; reflexivity | reflexivity].
  - destruct s as [|y s].
    + split; [discriminate | intros [post E]; discriminate E].
    + rewrite andb_true_iff, Ascii.eqb_eq, IH. split.
      * intros [-> [post ->]]. exists post; reflexivity.
      * intros [post E]. injection E as -> ->. split; [reflexivity|].
        exists post; reflexivity.
Qed.

(** [p in s] holds exactly when [s] is [pre ++ p ++ post]. *)
Lemma contains_spec (p s : str) :
  contains p s = true <-> exists pre post, s = pre ++ p ++ post.
Proof.
  induction s as [|c s IH].
  - simpl. rewrite orb_false_r, prefixb_spec. split.
    + intros [post E]. exists [], post. exact E.
    + intros [pre [post E]]. destruct pre as [|x pre]; [|discriminate E].
      exists post. exact E.
  - cbn [contains]. rewrite orb_true_iff, prefixb_spec, IH. split.
    + intros [[post E] | [pre [post E]]].
      * exists [], post. exact E.
      * exists (c :: pre), post. rewrite E. reflexivity.
    + intros [pre [post E]]. destruct pre as [|x pre].
      * left. exists post. exact E.
      * right. injection E as _ E. exists pre, post. exact E.
Qed.

Lemma lower_app (a b : str) : lower (a ++ b) = lower a ++ lower b.
Proof. apply map_app. Qed.

(** A lower-case phrase found in a text is found in the lowered text. *)
Lemma contains_lower (p s : str) :
  lower p = p -> contains p s = true -> contains p (lower s) = true.
Proof.
  intros Hp H. apply contains_spec in H. destruct H as [pre [post ->]].
  apply contains_spec. exists (lower pre), (lower post).
  rewrite !lower_app, Hp. reflexivity.
Qed.

Lemma occurs_ci_contains (phrase text : str) :
  occurs_ci phrase text <-> contains phrase (lower text) = true.
Proof.
  rewrite contains_spec. split.
  - intros [pre [mid [post [-> <-]]]].
    exists (lower pre), (lower post). rewrite !lower_app. reflexivity.
  - intros [pre [post E]]. unfold lower in E.
    apply map_eq_app in E. destruct E as [l1 [l2 [-> [E1 E2]]]].
    apply map_eq_app in E2. destruct E2 as [l3 [l4 [-> [E3 E4]]]].
    exists l1, l3, l4. split; [reflexivity | exact E3].
Qed.

End StringFacts.

(* ================================================================== *)
(** * The intent classifier *)

Section Intent.

Lemma existsb_contains (phrases : list str) (msg : str) :
  existsb (fun phrase => contains phrase (lower msg)) phrases = true
  <-> exists p, In p phrases /\ occurs_ci p msg.
Proof.
  rewrite existsb_exists. split; intros [p [Hin H]]; exists p; split; auto;
    apply occurs_ci_contains; exact H.
Qed.

(** C9.  An offering phrase wins over a seeking phrase: a text in which
    a phrase of each list occurs, in whatever letter case, is
    classified [offering]; a text in which no phrase of either list
    occurs is classified [unknown]. *)
Theorem classify_ride_type_priority (msg : str) :
  (forall po ps, In po offer_keywords -> In ps seek_keywords ->
                 occurs_ci po msg -> occurs_ci ps msg ->
                 classify_ride_type msg = offering)
  /\ ((forall p, In p (offer_keywords ++ seek_keywords) -> ~ occurs_ci p msg) ->
      classify_ride_type msg = unknown).
Proof.
  unfold classify_ride_type. split.
  - intros po ps Ho _ Hpo _.
    assert (E : existsb (fun phrase => contains phrase (lower msg))
                        offer_keywords = true)
      by (apply existsb_contains; exists po; auto).
    rewrite E. reflexivity.
  - intros Hnone.
    assert (Eo : existsb (fun phrase => contains phrase (lower msg))
                         offer_keywords = false).
    { apply not_true_is_false. intros E. apply existsb_contains in E.
      destruct E as [p [Hin H]]. apply (Hnone p); auto.
      apply in_or_app; left; exact Hin. }
    assert (Es : existsb (fun phrase => contains phrase (lower msg))
                         seek_keywords = false).
    { apply not_true_is_false. intros E. apply existsb_contains in E.
      destruct E as [p [Hin H]]. apply (Hnone p); auto.
      apply in_or_app; right; exact Hin. }
    rewrite Eo, Es. reflexivity.
Qed.

Lemma classify_ride_type_priority_witness :
  classify_ride_type (py "Offering a seat, anyone going to PGH?") = offering
  /\ classify_ride_type (py "hello everyone") = unknown.
Proof.
  split.
  - apply (proj1 (classify_ride_type_priority
                    (py "Offering a seat, anyone going to PGH?"))
                 (py "offering") (py "anyone going")).
    + vm_compute; auto.
    + vm_compute; auto.
    + apply occurs_ci_contains; vm_compute; reflexivity.
    + apply occurs_ci_contains; vm_compute; reflexivity.
  - apply (proj2 (classify_ride_type_priority (py "hello everyone"))).
    intros p Hin Hocc. apply occurs_ci_contains in Hocc.
    vm_compute in Hin.
    repeat (destruct Hin as [<- | Hin]; [vm_compute in Hocc; discriminate Hocc|]).
    exact Hin.
Defined.

End Intent.

(* ================================================================== *)
(** * The date and time extractor *)

Section DateTime.

Variable today : date.

Lemma tomorrow_lower : lower (py "tomorrow") = py "tomorrow".
Proof. reflexivity. Qed.

(** The day after a date [datetime] accepts is again such a date. *)
Lemma add_day_valid (d d' : date) :
  valid d = true -> add_day d = Returned d' -> valid d' = true.
Proof.
  unfold valid, add_day, between. intros Hv.
  rewrite !andb_true_iff, !Nat.leb_le in Hv.
  destruct (day d <? days_in_month (year d) (month d)) eqn:E1.
  - intros E; injection E as <-. cbn [year month day].
    apply Nat.ltb_lt in E1.
    rewrite !andb_true_iff, !Nat.leb_le. lia.
  - destruct (month d <? 12) eqn:E2.
    + intros E; injection E as <-. cbn [year month day].
      apply Nat.ltb_lt in E2.
      rewrite !andb_true_iff, !Nat.leb_le. repeat split; try lia.
      unfold days_in_month.
      destruct (month d + 1) as [|[|[|[|[|[|[|[|[|[|[|[|?]]]]]]]]]]]];
        try destruct (is_leap (year d)); lia.
    + destruct (year d <? 9999) eqn:E3; [|discriminate].
      intros E; injection E as <-. cbn [year month day].
      apply Nat.ltb_lt in E3.
      rewrite !andb_true_iff, !Nat.leb_le.
      change (days_in_month (year d + 1) 1) with 31. lia.
Qed.

(** C4, as the code has it.  For every text that contains "tomorrow"
    and in no letter case "today", and every reference date that
    parses, is of the year 1000 or later and has a next day, the ride
    date is the reference date plus one day, written year-month-day
    with a year of four digits, whatever the date patterns found. *)
Theorem tomorrow_overrides_patterns (text wa_date : str) (d d' : date) :
  contains (py "tomorrow") text = true ->
  contains (py "today") (lower text) = false ->
  strptime_ymd wa_date = Some d ->
  1000 <= year d ->
  add_day d = Returned d' ->
  exists ride_time,
    extract_datetime_info today text wa_date
    = Returned (Some (strftime_ymd d'), ride_time).
Proof.
  intros Htom Htod Hparse _ Hnext.
  apply (contains_lower _ _ tomorrow_lower) in Htom.
  unfold extract_datetime_info, reference_date.
  rewrite Hparse, Htod, Htom, Hnext.
  eexists; reflexivity.
Qed.

End DateTime.

Lemma tomorrow_overrides_patterns_witness :
  exists ride_time,
    extract_datetime_info march_1 (py "leaving on 5th March, well, Tomorrow or tomorrow")
                          (py "2024-02-29")
    = Returned (Some (py "2024-03-01"), ride_time).
Proof.
  apply (tomorrow_overrides_patterns march_1
           (py "leaving on 5th March, well, Tomorrow or tomorrow")
           (py "2024-02-29")
           {| year := 2024; month := 2; day := 29 |}
           {| year := 2024; month := 3; day := 1 |});
    try (vm_compute; reflexivity).
  vm_compute. lia.
Defined.

(** C4 as stated fails: with "today" in the text as well, the ride
    date is the reference date itself. *)
Lemma tomorrow_after_today_counterexample :
  contains (py "tomorrow") (py "today or tomorrow") = true
  /\ strptime_ymd (py "2024-03-01") = Some march_1
  /\ add_day march_1 = Returned march_2
  /\ extract_datetime_info march_1 (py "today or tomorrow") (py "2024-03-01")
     = Returned (Some (py "2024-03-01"), None)
  /\ py "2024-03-01" <> strftime_ymd march_2.
Proof.
  repeat split; try (vm_compute; reflexivity).
  vm_compute. discriminate.
Qed.

(* ================================================================== *)
(** * The directional pair extractor *)

Section PairExtractor.

Lemma first_some_inv {A B} (f : A -> option B) (l : list A) (y : B) :
  first_some f l = Some y -> exists x, In x l /\ f x = Some y.
Proof.
  induction l as [|x l IH]; simpl; [discriminate|].
  destruct (f x) as [y'|] eqn:E.
  - intros H; injection H as ->. exists x; auto.
  - intros H. destruct (IH H) as [x' [Hin Hx']]. exists x'; auto.
Qed.

Lemma place_match_in (pm : dict) (s v : str) :
  place_match pm s = Some v -> exists k, In (k, v) pm.
Proof.
  unfold place_match. destruct (find _ pm) as [[k v']|] eqn:E; simpl;
    [|discriminate].
  intros H; injection H as ->. apply find_some in E.
  exists k. apply E.
Qed.

Lemma truthy_some (s : str) : truthy (Some s) = true -> s <> [].
Proof. destruct s; simpl; [discriminate | discriminate]. Qed.

(** A pair accepted by the nested loops: two non-empty, different
    names. *)
Lemma test_pair_inv (pm : dict) (src dst a b : str) :
  test_pair pm src dst = Some (a, b) -> a <> [] /\ b <> [] /\ a <> b.
Proof.
  unfold test_pair.
  destruct (place_match pm src) as [a'|]; [|discriminate].
  destruct (place_match pm dst) as [b'|]; [|discriminate].
  destruct (truthy (Some a')) eqn:Ta; [|discriminate].
  destruct (truthy (Some b')) eqn:Tb; [|discriminate].
  destruct (str_eqb a' b') eqn:Eab; [discriminate|].
  simpl. intros H; injection H as -> ->.
  repeat split; try (apply truthy_some; assumption).
  apply str_eqb_neq; assumption.
Qed.

Lemma scan_pairs_inv (pm : dict) (srcs dsts : list str) (a b : str) :
  scan_pairs pm srcs dsts = Some (a, b) -> a <> [] /\ b <> [] /\ a <> b.
Proof.
  unfold scan_pairs. intros H.
  apply first_some_inv in H. destruct H as [src [_ H]].
  apply first_some_inv in H. destruct H as [dst [_ H]].
  exact (test_pair_inv _ _ _ _ _ H).
Qed.

(** A pair from the "driving to" block: the synthetic home base and a
    non-empty canonical name of the gazetteer. *)
Lemma bare_to_inv (pm : dict) (words : list str) (i : nat) (o d : str) :
  bare_to pm words i = Some (o, d) ->
  o = synthetic_home_base /\ d <> [] /\ exists k, In (k, d) pm.
Proof.
  unfold bare_to. destruct (str_eqb (word words i) (py "to")); [|discriminate].
  intros H. apply first_some_inv in H. destruct H as [dst [_ H]].
  destruct (place_match pm dst) as [d'|] eqn:E; [|discriminate].
  destruct (truthy (Some d')) eqn:T; [|discriminate].
  injection H as <- ->. repeat split.
  - apply truthy_some; assumption.
  - exact (place_match_in _ _ _ E).
Qed.

Lemma scan_at_inv (pm : dict) (words : list str) (i : nat) (o d : str) :
  scan_at pm words i = Some (o, d) ->
  o <> [] /\ d <> []
  /\ (o <> d \/ (o = synthetic_home_base /\ exists k, In (k, d) pm)).
Proof.
  unfold scan_at. destruct (cue words i) as [[srcs dsts]|]; [|discriminate].
  destruct (scan_pairs pm srcs dsts) as [[a b]|] eqn:E.
  - intros H; injection H as -> ->.
    destruct (scan_pairs_inv _ _ _ _ _ E) as [Ha [Hb Hab]]. auto.
  - intros H. destruct (bare_to_inv _ _ _ _ _ H) as [-> [Hd Hk]].
    repeat split; auto. discriminate.
Qed.

(** What [extract_first_pair] can return: nothing at all, or two
    non-empty names. *)
Lemma extract_first_pair_cases (text : str) (pm : dict) :
  extract_first_pair text pm = (None, None)
  \/ exists o d,
       extract_first_pair text pm = (Some o, Some d)
       /\ o <> [] /\ d <> []
       /\ (o <> d \/ (o = synthetic_home_base /\ exists k, In (k, d) pm)).
Proof.
  unfold extract_first_pair.
  destruct (first_some _ _) as [[o d]|] eqn:E; [right | left; reflexivity].
  apply first_some_inv in E. destruct E as [i [_ E]].
  exists o, d. split; [reflexivity | exact (scan_at_inv _ _ _ _ _ E)].
Qed.










(** C7.  When [extract_first_pair] returns a pair of two distinct
    places, the message is classified [ride], with that pair as origin
    and destination. *)
Theorem pair_implies_ride (O : PySetOrder) (pm : dict) (text o d : str) :
  extract_first_pair text pm = (Some o, Some d) ->
  o <> d ->
  classify_message O pm text = (ride, Some o, Some d).
Proof.
  intros E _.
  destruct (extract_first_pair_cases text pm) as [N | [o' [d' [E' [Ho [Hd _]]]]]].
  - rewrite N in E; discriminate.
  - rewrite E' in E. injection E as -> ->.
    unfold classify_message, categorize. rewrite E'.
    destruct o as [|x o]; [contradiction Ho; reflexivity|].
    destruct d as [|y d]; [contradiction Hd; reflexivity|].
    reflexivity.
Qed.

Lemma pair_implies_ride_witness :
  classify_message insertion_order (load_places scenario_places)
                   (py "driving from SC to Pittsburgh tomorrow at 6:30pm")
  = (ride, Some (py "state college"), Some (py "pittsburgh")).
Proof.
  apply pair_implies_ride.
  - vm_compute. reflexivity.
  - vm_compute. discriminate.
Defined.

End PairExtractor.

(* ================================================================== *)
(** * Tokens and the cues that can fire *)

Section Tokens.

Lemma split_ws_from_chars (Q : ascii -> Prop) (s : str) :
  forall cur w,
    (forall c, In c cur -> Q c) ->
    (forall c, In c s -> is_space c = false -> Q c) ->
    In w (split_ws_from cur s) ->
    forall c, In c w -> Q c.
Proof.
  induction s as [|x s IH]; intros cur w Hcur Hs Hw c Hc.
  - simpl in Hw. destruct cur as [|y cur]; [contradiction|].
    destruct Hw as [<- | []]. apply Hcur. apply in_rev. exact Hc.
  - simpl in Hw. destruct (is_space x) eqn:Ex.
    + assert (Hs' : forall c, In c s -> is_space c = false -> Q c)
        by (intros; apply Hs; [right|]; assumption).
      destruct cur as [|y cur].
      * apply (IH [] w); auto; try (intros ? []).
      * destruct Hw as [<- | Hw].
        -- apply Hcur. apply in_rev. exact Hc.
        -- apply (IH [] w); auto; try (intros ? []).
    + apply (IH (x :: cur) w); auto.
      * intros c' [<- | Hc']; [apply Hs; [left; reflexivity | exact Ex] | auto].
      * intros; apply Hs; [right|]; assumption.
Qed.

(** After the punctuation is removed, a token holds letters and digits
    only. *)
Lemma tokens_alnum (text w : str) (c : ascii) :
  In w (tokens text) -> In c w -> is_alnum c = true.
Proof.
  unfold tokens, split. intros Hw Hc.
  apply (split_ws_from_chars (fun c => is_alnum c = true)
           (strip_punct (lower text)) [] w); try assumption.
  - intros ? [].
  - intros c' Hin Hsp. unfold strip_punct in Hin.
    apply filter_In in Hin. destruct Hin as [_ H].
    rewrite Hsp, orb_false_r in H. exact H.
Qed.

(** So the hyphen and the arrow are never tokens: of the three
    connectors only "to" can be met. *)
Lemma tokens_connector (text w : str) :
  In w (tokens text) -> connector w = true -> w = py "to".
Proof.
  intros Hw. unfold connector. rewrite !orb_true_iff, !str_eqb_eq.
  intros [[E | E] | E]; [exact E | |]; exfalso; subst w.
  - assert (H := tokens_alnum text _ "-"%char Hw (or_introl eq_refl)).
    vm_compute in H. discriminate H.
  - assert (H := tokens_alnum text _ (ascii_of_nat 226) Hw (or_introl eq_refl)).
    vm_compute in H. discriminate H.
Qed.

(** The "driving to" block is reached at a "to" only when the token
    after it is a connector. *)
Lemma bare_to_reached (pm : dict) (words : list str) (i : nat) (p : str * str) :
  scan_at pm words i = Some p ->
  word words i = py "to" ->
  connector (word words (i + 1)) = true.
Proof.
  unfold scan_at, cue. intros H Hto. rewrite Hto in H.
  change (str_eqb (py "to") (py "from")) with false in H. simpl in H.
  destruct (connector (word words (i + 1))); [reflexivity | discriminate].
Qed.

End Tokens.

(* ================================================================== *)
(** * The category classifier and its fallback *)

Section Fallback.

Lemma mem_false (x : str) (s : list str) : mem x s = false -> ~ In x s.
Proof.
  unfold mem. intros H Hin.
  assert (E : existsb (str_eqb x) s = true)
    by (apply existsb_exists; exists x; split; [exact Hin | apply str_eqb_refl]).
  congruence.
Qed.

Lemma set_add_NoDup (x : str) (s : list str) :
  NoDup s -> NoDup (set_add x s).
Proof.
  intros H. unfold set_add. destruct (mem x s) eqn:E; [exact H|].
  apply NoDup_app; [exact H | constructor; [intros [] | constructor] |].
  intros a Ha [<- | []]. exact (mem_false _ _ E Ha).
Qed.

Lemma fold_set_add_NoDup (text : str) (pm : dict) :
  forall found,
    NoDup found ->
    NoDup (fold_left
             (fun found_places kv =>
                if place_in (fst kv) text then set_add (snd kv) found_places
                else found_places) pm found).
Proof.
  induction pm as [|kv pm IH]; intros found H; simpl; [exact H|].
  apply IH. destruct (place_in (fst kv) text);
    [apply set_add_NoDup|]; exact H.
Qed.

Lemma count_unique_places_NoDup (text : str) (pm : dict) :
  NoDup (count_unique_places text pm).
Proof. apply fold_set_add_NoDup. constructor. Qed.

(** A message classified [ride] without a pair has at least two found
    places, all different. *)
Lemma categorize_ride (pm : dict) (msg : str) (found : list str) :
  categorize pm msg None None = (ride, found) ->
  NoDup found /\ 2 <= length found.
Proof.
  unfold categorize. cbn [truthy andb].
  set (fp := count_unique_places (normalize_text msg) pm).
  assert (Hfp : NoDup fp) by apply count_unique_places_NoDup.
  destruct (place_in (py "to") (normalize_text msg)
            && place_in (py "from") (normalize_text msg)
            && (2 <=? length fp)) eqn:E2.
  - intros H; injection H as <-. split; [exact Hfp|].
    apply andb_prop in E2. destruct E2 as [_ E2]. apply Nat.leb_le. exact E2.
  - destruct (place_in (py "to") (normalize_text msg)
              && negb (place_in (py "from") (normalize_text msg))
              && (1 <=? length fp)); [|discriminate].
    destruct (2 <=? length (set_add synthetic_home_base fp)) eqn:E3;
      [|discriminate].
    intros H; injection H as <-. split.
    + apply set_add_NoDup. exact Hfp.
    + apply Nat.leb_le. exact E3.
Qed.

(** C5, as the code has it.  For a message classified [ride] for which
    [extract_first_pair] returned no pair, the found-places set has at
    least two members, and origin and destination are the first two
    members in the order in which the set is iterated: two different
    members of the set. *)
Theorem fallback_pair (O : PySetOrder) (pm : dict) (msg : str)
        (found : list str) :
  extract_first_pair msg pm = (None, None) ->
  categorize pm msg None None = (ride, found) ->
  exists a b,
    first_two (set_iter O found) = Some (a, b)
    /\ classify_message O pm msg = (ride, Some a, Some b)
    /\ a <> b /\ In a found /\ In b found /\ 2 <= length found.
Proof.
  intros Hnone Hcat.
  destruct (categorize_ride _ _ _ Hcat) as [Hnd Hlen].
  assert (Hperm := set_iter_perm O found).
  assert (Hlen' : 2 <= length (set_iter O found))
    by (rewrite (Permutation_length Hperm); exact Hlen).
  assert (Hnd' : NoDup (set_iter O found))
    by (apply (Permutation_NoDup (Permutation_sym Hperm)); exact Hnd).
  unfold classify_message. rewrite Hnone, Hcat. cbn [truthy negb is_ride andb].
  destruct (set_iter O found) as [|a [|b rest]];
    [simpl in Hlen'; lia | simpl in Hlen'; lia |].
  exists a, b. repeat split; auto.
  - inversion Hnd' as [|? ? Hna _]. intros <-. apply Hna. left; reflexivity.
  - apply (Permutation_in _ Hperm). left; reflexivity.
  - apply (Permutation_in _ Hperm). right; left; reflexivity.
Qed.

Lemma fallback_pair_witness :
  exists a b,
    first_two [py "pittsburgh"; py "state college*"] = Some (a, b)
    /\ classify_message insertion_order (load_places scenario_places)
                        (py "anyone going to pgh this weekend?")
       = (ride, Some a, Some b)
    /\ a <> b
    /\ In a [py "pittsburgh"; py "state college*"]
    /\ In b [py "pittsburgh"; py "state college*"]
    /\ 2 <= 2.
Proof.
  apply (fallback_pair insertion_order (load_places scenario_places)
           (py "anyone going to pgh this weekend?")
           [py "pittsburgh"; py "state college*"]);
    vm_compute; reflexivity.
Defined.

(** C5 as stated fails: the set may be iterated in another order than
    its members were added in.  Iterated in reverse, the set of the
    message, filled with "pittsburgh" and then the home base, gives
    them as destination and origin. *)
Lemma fallback_pair_order_counterexample :
  extract_first_pair (py "anyone going to pgh this weekend?")
                     (load_places scenario_places) = (None, None)
  /\ categorize (load_places scenario_places)
                (py "anyone going to pgh this weekend?") None None
     = (ride, [py "pittsburgh"; py "state college*"])
  /\ classify_message reverse_order (load_places scenario_places)
                      (py "anyone going to pgh this weekend?")
     = (ride, Some (py "state college*"), Some (py "pittsburgh"))
  /\ first_two [py "pittsburgh"; py "state college*"]
     <> Some (py "state college*", py "pittsburgh").
Proof.
  repeat split; try (vm_compute; reflexivity).
  vm_compute. discriminate.
Qed.

End Fallback.

(* ================================================================== *)
(** * The gazetteer *)

Section Gazetteer.

Lemma dict_get_set_same (k v : str) (d : dict) :
  dict_get k (dict_set k v d) = Some v.
Proof.
  induction d as [|[k' v'] d IH]; simpl.
  - rewrite str_eqb_refl. reflexivity.
  - destruct (str_eqb k' k) eqn:E; simpl; rewrite E; auto.
Qed.

Lemma dict_get_set_other (k k2 v2 : str) (d : dict) :
  (exists v, dict_get k d = Some v) ->
  exists v, dict_get k (dict_set k2 v2 d) = Some v.
Proof.
  induction d as [|[k' v'] d IH]; simpl; intros [v H]; [discriminate|].
  destruct (str_eqb k' k2) eqn:E2; simpl; destruct (str_eqb k' k) eqn:E.
  - eauto.
  - eauto.
  - eauto.
  - apply IH. eauto.
Qed.

Lemma fold_dict_set_keeps (k canonical : str) (parts : list str) :
  forall d,
    (exists v, dict_get k d = Some v) ->
    exists v, dict_get k
                (fold_left (fun pm synonym => dict_set synonym canonical pm)
                           parts d) = Some v.
Proof.
  induction parts as [|p parts IH]; intros d H; simpl; [exact H|].
  apply IH. apply dict_get_set_other. exact H.
Qed.

(** A key once registered stays registered. *)
Lemma load_lines_keep (k : str) (file : list str) :
  forall d,
    (exists v, dict_get k d = Some v) ->
    exists v, dict_get k (fold_left load_line file d) = Some v.
Proof.
  induction file as [|l file IH]; intros d H; simpl; [exact H|].
  apply IH. unfold load_line. apply fold_dict_set_keeps. exact H.
Qed.

(** A line of whitespace is not skipped: it sets the empty key. *)
Lemma load_line_blank (d : dict) (line : str) :
  strip line = [] -> load_line d line = dict_set [] [] d.
Proof. intros E. unfold load_line. rewrite E. reflexivity. Qed.

(** C8, as the code has it.  Loading goes through every line without
    failing, and an empty line is not skipped: it registers the empty
    string as a key with the empty canonical name, and that key stays
    in the resulting map. *)
Theorem load_places_blank_line (pre post : list str) (line : str) :
  strip line = [] ->
  dict_get [] (load_places (pre ++ [line])) = Some []
  /\ exists v, dict_get [] (load_places (pre ++ line :: post)) = Some v.
Proof.
  intros E. unfold load_places. split.
  - rewrite fold_left_app. simpl. rewrite (load_line_blank _ _ E).
    apply dict_get_set_same.
  - rewrite fold_left_app. simpl. apply load_lines_keep.
    rewrite (load_line_blank _ _ E). exists []. apply dict_get_set_same.
Qed.

Lemma load_places_blank_line_witness :
  dict_get [] (load_places (scenario_places ++ [blank_line])) = Some []
  /\ exists v,
       dict_get [] (load_places (scenario_places ++ blank_line
                                   :: [py "harrisburg = hbg"])) = Some v.
Proof.
  apply (load_places_blank_line scenario_places [py "harrisburg = hbg"]
                                blank_line).
  vm_compute. reflexivity.
Defined.

(** C8 as stated fails: the map loaded from one empty line is not
    empty. *)
Lemma load_places_blank_counterexample :
  load_places [blank_line] = [([], [])]
  /\ load_places [blank_line] <> load_places [].
Proof. split; vm_compute; [reflexivity | discriminate]. Qed.

End Gazetteer.

(* ================================================================== *)
(** * The scenarios *)

Section Scenarios.

(** C1, as the code has it.  With the gazetteer of the scenario and
    the reference date 2024-03-01, the message "driving from SC to
    Pittsburgh tomorrow at 6:30pm" gives category ride, origin "state
    college", destination "pittsburgh", ride date "2024-03-02", ride
    time "6:30 pm" and ride type unknown. *)
Theorem scenario_driving (O : PySetOrder) (today : date) :
  process_message O (load_places scenario_places) today
                  driving_message (py "2024-03-01")
  = Returned {| res_category := ride;
                res_origin := Some (py "state college");
                res_destination := Some (py "pittsburgh");
                res_ride_date := Some (py "2024-03-02");
                res_ride_time := Some (py "6:30 pm");
                res_ride_type := Some unknown |}.
Proof. vm_compute. reflexivity. Qed.

(** C1 as stated fails: the ride type is not offering, no phrase of
    the offering list occurs in the message. *)
Lemma scenario_driving_counterexample :
  process_message insertion_order (load_places scenario_places) march_1
                  driving_message (py "2024-03-01")
  <> Returned {| res_category := ride;
                 res_origin := Some (py "state college");
                 res_destination := Some (py "pittsburgh");
                 res_ride_date := Some (py "2024-03-02");
                 res_ride_time := Some (py "6:30 pm");
                 res_ride_type := Some offering |}.
Proof. vm_compute. discriminate. Qed.

(** C2, on the code.  The message "anyone going to pgh this weekend?"
    gets no pair from [extract_first_pair], and neither does "driving
    to pgh": at the token "to" the next token is no connector, the
    loop continues, and the "driving to" block is not reached. *)
Theorem bare_to_is_skipped :
  extract_first_pair going_message (load_places scenario_places) = (None, None)
  /\ extract_first_pair (py "driving to pgh") (load_places scenario_places)
     = (None, None)
  /\ cue (tokens going_message) 2 = None.
Proof. repeat split; vm_compute; reflexivity. Qed.

(** C3, on the code.  The hyphen and the arrow are removed with the
    punctuation before the text is cut into tokens, so "sc - pittsburgh"
    and its arrow form give no pair. *)
Theorem hyphen_and_arrow_are_stripped :
  tokens (py "sc - pittsburgh") = [py "sc"; py "pittsburgh"]
  /\ extract_first_pair (py "sc - pittsburgh") (load_places scenario_places)
     = (None, None)
  /\ extract_first_pair (py "sc " ++ arrow ++ py " pittsburgh")
                        (load_places scenario_places)
     = (None, None).
Proof. repeat split; vm_compute; reflexivity. Qed.

End Scenarios.

(* ================================================================== *)
(** * Characters and the normalizer *)

Section Normalizer.

Ltac by_cases c :=
  destruct c as [[] [] [] [] [] [] [] []]; reflexivity.

Lemma lower_char_idem (c : ascii) : lower_char (lower_char c) = lower_char c.
Proof. by_cases c. Qed.

Lemma is_space_lower (c : ascii) : is_space (lower_char c) = is_space c.
Proof. by_cases c. Qed.

Lemma is_alnum_lower (c : ascii) : is_alnum (lower_char c) = is_alnum c.
Proof. by_cases c. Qed.

Lemma is_digit_lower (c : ascii) : is_digit (lower_char c) = is_digit c.
Proof. by_cases c. Qed.

Lemma is_upper_lower (c : ascii) : is_upper (lower_char c) = false.
Proof. by_cases c. Qed.

Lemma lower_idem (s : str) : lower (lower s) = lower s.
Proof.
  unfold lower. rewrite map_map. apply map_ext. apply lower_char_idem.
Qed.

(** Lowering and removing the punctuation can be done in either
    order. *)
Lemma strip_punct_lower (s : str) :
  strip_punct (lower s) = lower (strip_punct s).
Proof.
  induction s as [|c s IH]; [reflexivity|].
  simpl. rewrite is_alnum_lower, is_space_lower.
  destruct (is_alnum c || is_space c); simpl; rewrite IH; reflexivity.
Qed.

Lemma strip_punct_idem (s : str) : strip_punct (strip_punct s) = strip_punct s.
Proof.
  unfold strip_punct. induction s as [|c s IH]; [reflexivity|].
  simpl. destruct (is_alnum c || is_space c) eqn:E; simpl;
    [rewrite E, IH|]; auto.
Qed.

(** The tokens of the pair extractor are the words of the normalized
    text. *)
Lemma tokens_normalize (text : str) : tokens text = split (normalize_text text).
Proof. unfold tokens, normalize_text. rewrite strip_punct_lower. reflexivity. Qed.

(** X1.  Normalizing is idempotent, and a normalized text holds
    nothing but lower-case letters, digits and whitespace. *)
Theorem normalize_text_idempotent (text : str) :
  normalize_text (normalize_text text) = normalize_text text
  /\ Forall (fun c => (is_lower c || is_digit c || is_space c) = true)
            (normalize_text text).
Proof.
  split.
  - unfold normalize_text.
    rewrite <- strip_punct_lower, lower_idem, strip_punct_lower,
      strip_punct_idem. reflexivity.
  - unfold normalize_text, lower. apply Forall_forall. intros c Hin.
    apply in_map_iff in Hin. destruct Hin as [x [<- Hx]].
    unfold strip_punct in Hx. apply filter_In in Hx. destruct Hx as [_ Hx].
    revert Hx. destruct x as [[] [] [] [] [] [] [] []];
      vm_compute; intros H; (reflexivity || discriminate H).
Qed.

End Normalizer.

(* ================================================================== *)
(** * Dictionaries and the loaded gazetteer *)

Section LoadedGazetteer.

Lemma dict_set_keys (k v k' : str) (d : dict) :
  In k' (keys (dict_set k v d)) <-> k' = k \/ In k' (keys d).
Proof.
  unfold keys. induction d as [|[k0 v0] d IH]; simpl.
  - split; [intros [E | []]; auto | intros [E | []]; auto].
  - destruct (str_eqb k0 k) eqn:E; simpl.
    + apply str_eqb_eq in E. subst k0. intuition congruence.
    + rewrite IH. intuition congruence.
Qed.

Lemma dict_set_NoDup (k v : str) (d : dict) :
  NoDup (keys d) -> NoDup (keys (dict_set k v d)).
Proof.
  unfold keys. induction d as [|[k0 v0] d IH]; simpl; intros H.
  - constructor; [intros [] | constructor].
  - inversion H as [|? ? Hn Hd]; subst.
    destruct (str_eqb k0 k) eqn:E; simpl.
    + constructor; assumption.
    + constructor; [|apply IH; assumption].
      intros Hin. apply (dict_set_keys k v k0 d) in Hin.
      destruct Hin as [-> | Hin]; [|contradiction].
      rewrite str_eqb_refl in E. discriminate E.
Qed.

Lemma dict_get_In (k v : str) (d : dict) :
  dict_get k d = Some v -> In (k, v) d.
Proof.
  induction d as [|[k0 v0] d IH]; simpl; [discriminate|].
  destruct (str_eqb k0 k) eqn:E.
  - apply str_eqb_eq in E. intros H; injection H as ->. left; congruence.
  - intros H. right. apply IH. exact H.
Qed.

Lemma In_dict_get (k v : str) (d : dict) :
  NoDup (keys d) -> In (k, v) d -> dict_get k d = Some v.
Proof.
  unfold keys. induction d as [|[k0 v0] d IH]; simpl; intros Hnd [];
    inversion Hnd as [|? ? Hn Hd]; subst.
  - injection H as -> ->. rewrite str_eqb_refl. reflexivity.
  - destruct (str_eqb k0 k) eqn:E.
    + apply str_eqb_eq in E. subst k0. exfalso. apply Hn.
      apply in_map_iff. exists (k, v). auto.
    + apply IH; assumption.
Qed.

Lemma dict_get_set (k k2 v2 : str) (d : dict) :
  dict_get k (dict_set k2 v2 d)
  = if str_eqb k2 k then Some v2 else dict_get k d.
Proof.
  induction d as [|[k0 v0] d IH]; simpl.
  - reflexivity.
  - destruct (str_eqb k0 k2) eqn:E2; simpl.
    + apply str_eqb_eq in E2. subst k0. destruct (str_eqb k2 k); reflexivity.
    + destruct (str_eqb k0 k) eqn:E0.
      * apply str_eqb_eq in E0. subst k0.
        destruct (str_eqb k2 k) eqn:E; [|reflexivity].
        apply str_eqb_eq in E. subst k2. rewrite str_eqb_refl in E2.
        discriminate E2.
      * exact IH.
Qed.

Lemma load_line_parts (d : dict) (line : str) :
  load_line d line
  = fold_left (fun pm synonym => dict_set synonym (hd [] (line_parts line)) pm)
              (line_parts line) d.
Proof. reflexivity. Qed.

Lemma fold_dict_set_NoDup (c : str) (parts : list str) :
  forall d, NoDup (keys d) ->
            NoDup (keys (fold_left (fun pm s => dict_set s c pm) parts d)).
Proof.
  induction parts as [|p parts IH]; intros d H; simpl; [exact H|].
  apply IH. apply dict_set_NoDup. exact H.
Qed.

Lemma load_lines_NoDup (file : list str) :
  forall d, NoDup (keys d) -> NoDup (keys (fold_left load_line file d)).
Proof.
  induction file as [|l file IH]; intros d H; simpl; [exact H|].
  apply IH. rewrite load_line_parts. apply fold_dict_set_NoDup. exact H.
Qed.

(** X2.  The loaded gazetteer holds no key twice, so the value stored
    beside a key is the value a lookup of the key returns. *)
Theorem load_places_functional (file : list str) :
  NoDup (keys (load_places file))
  /\ forall k v, In (k, v) (load_places file)
                 <-> dict_get k (load_places file) = Some v.
Proof.
  assert (H : NoDup (keys (load_places file)))
    by (apply load_lines_NoDup; constructor).
  split; [exact H|]. intros k v. split.
  - apply In_dict_get. exact H.
  - apply dict_get_In.
Qed.

Lemma fold_dict_set_get (c k : str) (parts : list str) :
  forall d,
    dict_get k (fold_left (fun pm s => dict_set s c pm) parts d)
    = if existsb (fun p => str_eqb p k) parts then Some c else dict_get k d.
Proof.
  induction parts as [|p parts IH]; intros d; simpl; [reflexivity|].
  rewrite IH, dict_get_set.
  destruct (str_eqb p k); simpl; [|reflexivity].
  destruct (existsb _ parts); reflexivity.
Qed.

Lemma existsb_str_eqb (k : str) (parts : list str) :
  existsb (fun p => str_eqb p k) parts = true <-> In k parts.
Proof.
  rewrite existsb_exists. split.
  - intros [p [Hin E]]. apply str_eqb_eq in E. subst p. exact Hin.
  - intros Hin. exists k. split; [exact Hin | apply str_eqb_refl].
Qed.

(** What a lookup finds after one more line. *)
Lemma load_line_get (d : dict) (line k : str) :
  dict_get k (load_line d line)
  = if existsb (fun p => str_eqb p k) (line_parts line)
    then Some (hd [] (line_parts line)) else dict_get k d.
Proof. rewrite load_line_parts. apply fold_dict_set_get. Qed.

Lemma load_lines_get_skip (k : str) (post : list str) :
  (forall l, In l post -> ~ In k (line_parts l)) ->
  forall d, dict_get k (fold_left load_line post d) = dict_get k d.
Proof.
  induction post as [|l post IH]; intros Hno d; simpl; [reflexivity|].
  rewrite IH by (intros l' Hl'; apply Hno; right; exact Hl').
  rewrite load_line_get.
  destruct (existsb _ (line_parts l)) eqn:E; [|reflexivity].
  apply existsb_str_eqb in E. exfalso. apply (Hno l); [left; reflexivity | exact E].
Qed.

(** X3.  The last line that lists a synonym decides its canonical
    name: a part of a line, stripped and lowered, is mapped to the
    first part of that line when no later line lists it again. *)
Theorem load_places_last_line_wins (pre post : list str) (line p : str) :
  In p (line_parts line) ->
  (forall l, In l post -> ~ In p (line_parts l)) ->
  dict_get p (load_places (pre ++ line :: post))
  = Some (hd [] (line_parts line)).
Proof.
  intros Hin Hno. unfold load_places. rewrite fold_left_app. simpl.
  rewrite (load_lines_get_skip p post Hno), load_line_get.
  apply existsb_str_eqb in Hin. rewrite Hin. reflexivity.
Qed.

Lemma load_places_last_line_wins_witness :
  dict_get (py "sc")
           (load_places (scenario_places
                         ++ py "  Scranton = SC " :: [py "harrisburg = hbg"]))
  = Some (py "scranton").
Proof.
  apply (load_places_last_line_wins scenario_places [py "harrisburg = hbg"]
           (py "  Scranton = SC ") (py "sc")).
  - vm_compute. auto.
  - intros l [<- | []]. vm_compute.
    intros [H | [H | []]]; discriminate H.
Defined.

End LoadedGazetteer.

(* ================================================================== *)
(** * The shape of the gazetteer's entries *)

Section GazetteerEntries.

Lemma lstrip_lower (s : str) : lstrip (lower s) = lower (lstrip s).
Proof.
  induction s as [|c s IH]; [reflexivity|].
  simpl. rewrite is_space_lower. destruct (is_space c); [exact IH | reflexivity].
Qed.

Lemma lower_rev (s : str) : lower (rev s) = rev (lower s).
Proof. apply map_rev. Qed.

Lemma strip_lower (s : str) : strip (lower s) = lower (strip s).
Proof.
  unfold strip.
  rewrite lstrip_lower, <- lower_rev, lstrip_lower, <- lower_rev. reflexivity.
Qed.

Lemma lstrip_idem (s : str) : lstrip (lstrip s) = lstrip s.
Proof.
  induction s as [|c s IH]; [reflexivity|].
  simpl. destruct (is_space c) eqn:E; [exact IH|]. simpl. rewrite E. reflexivity.
Qed.

Lemma lstrip_head (s t : str) (c : ascii) :
  lstrip s = c :: t -> is_space c = false.
Proof.
  induction s as [|x s IH]; simpl; [discriminate|].
  destruct (is_space x) eqn:E; [exact IH|].
  intros H; injection H as <- _. exact E.
Qed.

Lemma lstrip_snoc (a : str) (c : ascii) :
  is_space c = false -> lstrip (a ++ [c]) = lstrip a ++ [c].
Proof.
  intros Hc. induction a as [|x a IH]; simpl.
  - rewrite Hc. reflexivity.
  - destruct (is_space x); [exact IH | reflexivity].
Qed.

Lemma strip_idem (s : str) : strip (strip s) = strip s.
Proof.
  unfold strip.
  destruct (lstrip s) as [|c t] eqn:Et; [reflexivity|].
  assert (Hc := lstrip_head _ _ _ Et).
  simpl (rev (c :: t)). rewrite (lstrip_snoc _ _ Hc).
  set (w := lstrip (rev t)).
  assert (E1 : lstrip (rev (w ++ [c])) = rev (w ++ [c]))
    by (rewrite rev_app_distr; simpl; rewrite Hc; reflexivity).
  rewrite E1, rev_involutive, (lstrip_snoc _ _ Hc).
  unfold w. rewrite lstrip_idem. reflexivity.
Qed.

Lemma part_stored_form (p : str) : stored_form (lower (strip p)).
Proof.
  split; [apply lower_idem|].
  rewrite strip_lower, strip_idem. reflexivity.
Qed.

Lemma line_parts_stored_form (line p : str) :
  In p (line_parts line) -> stored_form p.
Proof.
  unfold line_parts. intros H. apply in_map_iff in H.
  destruct H as [x [<- _]]. apply part_stored_form.
Qed.

Lemma split_on_cons (sep : ascii) (s : str) :
  exists p ps, split_on sep s = p :: ps.
Proof.
  induction s as [|c s [p [ps IH]]]; simpl; [eauto|].
  destruct (Ascii.eqb c sep); [eauto|]. rewrite IH. eauto.
Qed.

(** A line always has a first part, its canonical name. *)
Lemma line_parts_cons (line : str) :
  exists ps, line_parts line = hd [] (line_parts line) :: ps.
Proof.
  unfold line_parts.
  destruct (split_on_cons "="%char (strip line)) as [p [ps ->]].
  simpl. eauto.
Qed.

Lemma dict_set_In (k v k' v' : str) (d : dict) :
  In (k', v') (dict_set k v d) -> (k' = k /\ v' = v) \/ In (k', v') d.
Proof.
  induction d as [|[k0 v0] d IH]; simpl.
  - intros [H | []]. injection H as <- <-. auto.
  - destruct (str_eqb k0 k) eqn:E; simpl.
    + apply str_eqb_eq in E. subst k0.
      intros [H | H]; [injection H as <- <-|]; auto.
    + intros [H | H]; [auto|]. destruct (IH H); auto.
Qed.

Lemma dict_set_well_kept (k v : str) (d : dict) :
  well_kept d -> stored_form k -> stored_form v ->
  v = k \/ In v (keys d) ->
  well_kept (dict_set k v d).
Proof.
  intros Hd Hk Hv Hin k' v' H.
  destruct (dict_set_In _ _ _ _ _ H) as [[-> ->] | H'].
  - repeat split; try apply Hk; try apply Hv.
    apply dict_set_keys. destruct Hin; auto.
  - destruct (Hd _ _ H') as [Hk' [Hv' Hin']].
    repeat split; try apply Hk'; try apply Hv'.
    apply dict_set_keys. auto.
Qed.

Lemma fold_dict_set_well_kept (c : str) (parts : list str) :
  stored_form c ->
  (forall p, In p parts -> stored_form p) ->
  forall d, well_kept d -> In c (keys d) ->
            well_kept (fold_left (fun pm s => dict_set s c pm) parts d).
Proof.
  intros Hc. induction parts as [|p parts IH]; intros Hp d Hd Hin; simpl;
    [exact Hd|].
  apply IH.
  - intros q Hq. apply Hp. right; exact Hq.
  - apply dict_set_well_kept; auto. apply Hp. left; reflexivity.
  - apply dict_set_keys. auto.
Qed.

Lemma load_line_well_kept (d : dict) (line : str) :
  well_kept d -> well_kept (load_line d line).
Proof.
  intros Hd. rewrite load_line_parts.
  destruct (line_parts_cons line) as [ps E].
  assert (Hp : forall p, In p (line_parts line) -> stored_form p)
    by (intros p; apply line_parts_stored_form).
  set (c := hd [] (line_parts line)) in *.
  assert (Hc : stored_form c) by (apply Hp; rewrite E; left; reflexivity).
  rewrite E. simpl.
  apply fold_dict_set_well_kept; auto.
  - intros p Hin. apply Hp. rewrite E. right; exact Hin.
  - apply dict_set_well_kept; auto.
  - apply dict_set_keys. auto.
Qed.

Lemma load_lines_well_kept (file : list str) :
  forall d, well_kept d -> well_kept (fold_left load_line file d).
Proof.
  induction file as [|l file IH]; intros d H; simpl; [exact H|].
  apply IH. apply load_line_well_kept. exact H.
Qed.

(** X4.  Every key and every canonical name of the loaded gazetteer is
    lower-case and has no whitespace around it, and every canonical
    name is itself a key of the map. *)
Theorem load_places_entries (file : list str) (k v : str) :
  In (k, v) (load_places file) ->
  stored_form k /\ stored_form v /\ In v (keys (load_places file)).
Proof.
  apply (load_lines_well_kept file []). intros ? ? [].
Qed.

Lemma load_places_entries_witness :
  stored_form (py "happy valley") /\ stored_form (py "state college")
  /\ In (py "state college")
        (keys (load_places [py "  State College = SC=Happy Valley  "])).
Proof.
  apply (load_places_entries [py "  State College = SC=Happy Valley  "]).
  vm_compute. auto.
Defined.

End GazetteerEntries.

(* ================================================================== *)
(** * The place matcher: whole-word search *)

Section PlaceMatcher.

Lemma last_char_snoc (pre : str) (c : ascii) : last_char (pre ++ [c]) = Some c.
Proof. unfold last_char. rewrite rev_app_distr. reflexivity. Qed.

(** Matching a literal: the subject must start with it, and the match
    goes on behind it. *)
Lemma run_lit_str (p : str) :
  forall (pre s : str) (cs : list (nat * str)) (k : mstate -> option mstate),
    run (lit_str p) k {| prev := last_char pre; rest := s; caps := cs |}
    = if prefixb p s
      then k {| prev := last_char (pre ++ p);
                rest := skipn (length p) s; caps := cs |}
      else None.
Proof.
  induction p as [|c p IH]; intros pre s cs k.
  - simpl. rewrite app_nil_r. reflexivity.
  - change (lit_str (c :: p)) with (Cat (Chr c) (lit_str p)).
    cbn [run]. unfold step_if. cbn [rest caps prefixb].
    destruct s as [|x s]; [reflexivity|].
    destruct (Ascii.eqb c x) eqn:E; [|reflexivity].
    apply Ascii.eqb_eq in E. subst x. cbn [andb].
    rewrite <- (last_char_snoc pre c), IH, <- app_assoc. reflexivity.
Qed.

Lemma run_whole_word (p pre s : str) :
  run (whole_word p) Some {| prev := last_char pre; rest := s; caps := [] |}
  <> None
  <-> exists post, s = p ++ post /\ whole_word_at p pre post.
Proof.
  change (whole_word p) with (Cat Bnd (Cat (lit_str p) Bnd)).
  cbn [run]. unfold at_boundary at 1. cbn [prev rest].
  change (xorb (word_opt (last_char pre)) (word_opt (hd_error s)))
    with (boundary (last_char pre) (hd_error s)).
  rewrite run_lit_str. unfold at_boundary. cbn [prev rest].
  change (xorb (word_opt (last_char (pre ++ p)))
               (word_opt (hd_error (skipn (length p) s))))
    with (boundary (last_char (pre ++ p)) (hd_error (skipn (length p) s))).
  split.
  - destruct (boundary (last_char pre) (hd_error s)) eqn:B1;
      [|intros H; contradiction H; reflexivity].
    destruct (prefixb p s) eqn:P; [|intros H; contradiction H; reflexivity].
    destruct (boundary (last_char (pre ++ p)) _) eqn:B2;
      [|intros H; contradiction H; reflexivity].
    intros _. apply prefixb_spec in P. destruct P as [post ->].
    exists post. rewrite skipn_app, skipn_all, Nat.sub_diag in B2.
    split; [reflexivity | split; assumption].
  - intros [post [-> [B1 B2]]].
    assert (P : prefixb p (p ++ post) = true)
      by (apply prefixb_spec; exists post; reflexivity).
    rewrite B1, P, skipn_app, skipn_all, Nat.sub_diag. simpl skipn.
    simpl app at 2. rewrite B2. discriminate.
Qed.

Lemma search_whole_word (p : str) (s : str) :
  forall pre,
    search_from (whole_word p) (last_char pre) s <> None
    <-> exists mid post,
          s = mid ++ p ++ post /\ whole_word_at p (pre ++ mid) post.
Proof.
  induction s as [|c s IH]; intros pre.
  - cbn [search_from]. split.
    + intros H.
      destruct (run (whole_word p) Some _) eqn:E; [|contradiction H; reflexivity].
      assert (E' : run (whole_word p) Some
                     {| prev := last_char pre; rest := []; caps := [] |} <> None)
        by (rewrite E; discriminate).
      apply run_whole_word in E'. destruct E' as [post [Hs Hw]].
      exists [], post. rewrite app_nil_r. split; assumption.
    + intros [mid [post [Hs Hw]]].
      destruct mid as [|x mid]; [|discriminate Hs].
      rewrite app_nil_r in Hw.
      assert (E : run (whole_word p) Some
                    {| prev := last_char pre; rest := []; caps := [] |} <> None)
        by (apply run_whole_word; exists post; split; assumption).
      destruct (run (whole_word p) Some _); [discriminate | contradiction E; reflexivity].
  - cbn [search_from]. split.
    + intros H.
      destruct (run (whole_word p) Some _) eqn:E.
      * assert (E' : run (whole_word p) Some
                       {| prev := last_char pre; rest := c :: s; caps := [] |}
                     <> None) by (rewrite E; discriminate).
        apply run_whole_word in E'. destruct E' as [post [Hs Hw]].
        exists [], post. rewrite app_nil_r. split; assumption.
      * rewrite <- (last_char_snoc pre c) in H. apply IH in H.
        destruct H as [mid [post [-> Hw]]].
        exists (c :: mid), post. split; [reflexivity|].
        rewrite <- app_assoc in Hw. exact Hw.
    + intros [mid [post [Hs Hw]]].
      destruct (run (whole_word p) Some _) eqn:E; [discriminate|].
      destruct mid as [|x mid].
      * rewrite app_nil_r in Hw. exfalso.
        assert (E' : run (whole_word p) Some
                       {| prev := last_char pre; rest := c :: s; caps := [] |}
                     <> None)
          by (apply run_whole_word; exists post; split; assumption).
        apply E'. exact E.
      * injection Hs as <- ->. rewrite <- (last_char_snoc pre c).
        apply IH. exists mid, post. split; [reflexivity|].
        rewrite <- app_assoc. exact Hw.
Qed.

Lemma place_in_spec (place text : str) :
  place_in place text = true
  <-> exists pre post,
        text = pre ++ place ++ post /\ whole_word_at place pre post.
Proof.
  unfold place_in, search.
  change (@None ascii) with (last_char []).
  assert (H := search_whole_word place text []). simpl app in H.
  destruct (search_from (whole_word place) (last_char []) text).
  - split; [intros _; apply H; discriminate | reflexivity].
  - split; [discriminate|]. intros E. apply H in E. contradiction E; reflexivity.
Qed.

(** X5.  The place matcher finds a place exactly where it stands as a
    whole word: the text is [pre ++ place ++ post] with a word boundary
    on either side of the place. *)
Theorem place_in_whole_word (place text : str) :
  place_in place text = true
  <-> exists pre post,
        text = pre ++ place ++ post /\ whole_word_at place pre post.
Proof. apply place_in_spec. Qed.

(** In the empty text no place is found. *)
Lemma place_in_empty (place : str) : place_in place [] = false.
Proof.
  apply not_true_is_false. intros H. apply place_in_spec in H.
  destruct H as [pre [post [E [B1 B2]]]].
  destruct pre; [|discriminate E]. destruct place; [|discriminate E].
  destruct post; [|discriminate E]. discriminate B1.
Qed.

End PlaceMatcher.

(* ================================================================== *)
(** * The set of found places *)

Section FoundPlaces.

Lemma set_add_In (x c : str) (s : list str) :
  In c (set_add x s) <-> c = x \/ In c s.
Proof.
  unfold set_add. destruct (mem x s) eqn:E.
  - split; [auto|]. intros [-> | H]; [|exact H].
    unfold mem in E. apply existsb_exists in E. destruct E as [y [Hy E]].
    apply str_eqb_eq in E. subst y. exact Hy.
  - rewrite in_app_iff. simpl. intuition congruence.
Qed.

Lemma fold_set_add_In (text c : str) (pm : dict) :
  forall found,
    In c (fold_left
            (fun found_places kv =>
               if place_in (fst kv) text then set_add (snd kv) found_places
               else found_places) pm found)
    <-> In c found \/ exists k, In (k, c) pm /\ place_in k text = true.
Proof.
  induction pm as [|[k v] pm IH]; intros found; simpl.
  - split; [auto | intros [H | [k [[] _]]]; exact H].
  - rewrite IH. destruct (place_in k text) eqn:E.
    + rewrite set_add_In. split.
      * intros [[-> | H] | [k' [Hin Hp]]]; eauto 6.
      * intros [H | [k' [[Heq | Hin] Hp]]]; eauto 6.
        injection Heq as <- <-. auto.
    + split.
      * intros [H | [k' [Hin Hp]]]; eauto 6.
      * intros [H | [k' [[Heq | Hin] Hp]]]; eauto 6.
        injection Heq as <- <-. congruence.
Qed.

(** X6.  The found places are, each once, the canonical names of the
    gazetteer keys that stand in the text as whole words. *)
Theorem count_unique_places_spec (text : str) (pm : dict) :
  NoDup (count_unique_places text pm)
  /\ forall c, In c (count_unique_places text pm)
               <-> exists k, In (k, c) pm /\ place_in k text = true.
Proof.
  split; [apply count_unique_places_NoDup|].
  intros c. unfold count_unique_places. rewrite fold_set_add_In.
  split; [intros [[] | H]; exact H | auto].
Qed.

End FoundPlaces.

(* ================================================================== *)
(** * What a returned pair is made of *)

Section PairContents.

Lemma place_match_found (pm : dict) (s v : str) :
  place_match pm s = Some v ->
  exists k, In (k, v) pm /\ place_in k s = true.
Proof.
  unfold place_match. destruct (find _ pm) as [[k v']|] eqn:E; simpl;
    [|discriminate].
  intros H; injection H as ->. apply find_some in E. exists k. exact E.
Qed.

Lemma test_pair_values (pm : dict) (src dst a b : str) :
  test_pair pm src dst = Some (a, b) ->
  (exists k, In (k, a) pm) /\ (exists k, In (k, b) pm).
Proof.
  unfold test_pair.
  destruct (place_match pm src) as [a'|] eqn:Ea; [|discriminate].
  destruct (place_match pm dst) as [b'|] eqn:Eb; [|discriminate].
  destruct (_ && _); [|discriminate].
  intros H; injection H as -> ->.
  destruct (place_match_found _ _ _ Ea) as [k [H _]].
  destruct (place_match_found _ _ _ Eb) as [k' [H' _]]. eauto.
Qed.

Lemma scan_at_values (pm : dict) (words : list str) (i : nat) (o d : str) :
  scan_at pm words i = Some (o, d) ->
  (o = synthetic_home_base \/ exists k, In (k, o) pm)
  /\ exists k, In (k, d) pm.
Proof.
  unfold scan_at. destruct (cue words i) as [[srcs dsts]|]; [|discriminate].
  destruct (scan_pairs pm srcs dsts) as [[a b]|] eqn:E.
  - intros H; injection H as -> ->. unfold scan_pairs in E.
    apply first_some_inv in E. destruct E as [src [_ E]].
    apply first_some_inv in E. destruct E as [dst [_ E]].
    destruct (test_pair_values _ _ _ _ _ E). auto.
  - intros H. destruct (bare_to_inv _ _ _ _ _ H) as [-> [_ Hk]]. auto.
Qed.

(** X7.  The places of a returned pair are not made up: the
    destination is a canonical name of the gazetteer, the origin is one
    too or is the synthetic home base, and neither is the empty
    string. *)
Theorem extract_first_pair_from_gazetteer (text : str) (pm : dict) (o d : str) :
  extract_first_pair text pm = (Some o, Some d) ->
  (o = synthetic_home_base \/ exists k, In (k, o) pm)
  /\ (exists k, In (k, d) pm)
  /\ o <> [] /\ d <> [].
Proof.
  intros E.
  destruct (extract_first_pair_cases text pm) as [N | [o' [d' [E' [Ho [Hd _]]]]]];
    [rewrite N in E; discriminate|].
  rewrite E' in E. injection E as -> ->.
  unfold extract_first_pair in E'.
  destruct (first_some _ _) as [[o' d']|] eqn:F; [|discriminate].
  injection E' as -> ->.
  apply first_some_inv in F. destruct F as [i [_ F]].
  destruct (scan_at_values _ _ _ _ _ F) as [H1 H2]. auto.
Qed.

Lemma extract_first_pair_from_gazetteer_witness :
  (py "state college" = synthetic_home_base
   \/ exists k, In (k, py "state college") (load_places scenario_places))
  /\ (exists k, In (k, py "pittsburgh") (load_places scenario_places))
  /\ py "state college" <> [] /\ py "pittsburgh" <> [].
Proof.
  apply (extract_first_pair_from_gazetteer driving_message).
  vm_compute. reflexivity.
Defined.

Lemma scan_pairs_no_dst (pm : dict) (srcs : list str) :
  scan_pairs pm srcs [] = None.
Proof. unfold scan_pairs. induction srcs; simpl; auto. Qed.

Lemma word_In (words : list str) (i : nat) :
  i < length words -> In (word words i) words.
Proof. intros H. apply nth_In. exact H. Qed.

(** A turn of the loop that returns has met the token "to". *)
Lemma scan_at_needs_to (pm : dict) (text : str) (i : nat) (p : str * str) :
  i + 2 < length (tokens text) ->
  scan_at pm (tokens text) i = Some p ->
  In (py "to") (tokens text).
Proof.
  intros Hi. unfold scan_at, cue.
  set (words := tokens text) in *.
  destruct (str_eqb (word words i) (py "from")) eqn:Efrom.
  - cbn [andb].
    destruct ((i + 2 <? length words) && str_eqb (word words (i + 2)) (py "to"))
      eqn:E1.
    + intros _. apply andb_prop in E1. destruct E1 as [_ E1].
      apply str_eqb_eq in E1. rewrite <- E1. apply word_In. exact Hi.
    + set (srcs := candidates words (fun _ => i + 1) (fun k => i + 1 + k)
                              (fun k => i + 1 + k <=? length words)).
      set (to_idx := i + 1 + length (split (hd [] srcs))).
      destruct ((to_idx <? length words) && str_eqb (word words to_idx) (py "to"))
        eqn:E2.
      * intros _. apply andb_prop in E2. destruct E2 as [L E2].
        apply str_eqb_eq in E2. rewrite <- E2. apply word_In.
        apply Nat.ltb_lt. exact L.
      * rewrite scan_pairs_no_dst. unfold bare_to.
        apply str_eqb_eq in Efrom. rewrite Efrom.
        change (str_eqb (py "from") (py "to")) with false. discriminate.
  - cbn [andb].
    destruct (connector (word words (i + 1))) eqn:Ec; [|discriminate].
    intros _.
    assert (Hin : In (word words (i + 1)) words) by (apply word_In; lia).
    rewrite <- (tokens_connector text _ Hin Ec). exact Hin.
Qed.

Lemma pair_needs_to_token (text : str) (pm : dict) (o d : str) :
  extract_first_pair text pm = (Some o, Some d) ->
  In (py "to") (tokens text) /\ 3 <= length (tokens text).
Proof.
  unfold extract_first_pair.
  destruct (first_some _ _) as [p|] eqn:F; [|discriminate].
  intros _. apply first_some_inv in F. destruct F as [i [Hi F]].
  apply in_seq in Hi.
  split; [|lia]. apply (scan_at_needs_to pm text i p); [lia | exact F].
Qed.

(** X8.  A pair is returned only for a text of at least three tokens
    one of which is "to". *)
Theorem extract_first_pair_needs_to (text : str) (pm : dict) (o d : str) :
  extract_first_pair text pm = (Some o, Some d) ->
  In (py "to") (tokens text) /\ 3 <= length (tokens text).
Proof. apply pair_needs_to_token. Qed.

Lemma extract_first_pair_needs_to_witness :
  In (py "to") (tokens driving_message) /\ 3 <= length (tokens driving_message).
Proof.
  apply (extract_first_pair_needs_to driving_message
           (load_places scenario_places) (py "state college") (py "pittsburgh")).
  vm_compute. reflexivity.
Defined.

End PairContents.

(* ================================================================== *)
(** * Words of a text *)

Section Words.

Lemma is_space_not_word (c : ascii) : is_space c = true -> is_word c = false.
Proof.
  destruct c as [[] [] [] [] [] [] [] []]; vm_compute;
    intros H; (reflexivity || discriminate H).
Qed.

Lemma is_alnum_word (c : ascii) : is_alnum c = true -> is_word c = true.
Proof. unfold is_word. intros ->. reflexivity. Qed.

Lemma edge_or_space_not_word (o : option ascii) :
  edge_or_space o -> word_opt o = false.
Proof. destruct o as [c|]; simpl; [apply is_space_not_word | reflexivity]. Qed.

(** Where a word of [s.split()] stands in [s]: between whitespace or
    the ends of the text, and made of characters that are not
    whitespace. *)
Lemma split_ws_from_stands (s : str) :
  forall cur before w,
    edge_or_space (last_char before) ->
    Forall (fun c => is_space c = false) cur ->
    In w (split_ws_from cur s) ->
    exists pre post,
      before ++ rev cur ++ s = pre ++ w ++ post
      /\ edge_or_space (last_char pre)
      /\ edge_or_space (hd_error post)
      /\ w <> []
      /\ Forall (fun c => is_space c = false) w.
Proof.
  induction s as [|x s IH]; intros cur before w Hb Hcur Hw.
  - simpl in Hw. destruct cur as [|y cur]; [contradiction|].
    destruct Hw as [<- | []].
    exists before, []. rewrite !app_nil_r. repeat split; auto.
    + simpl. intros E. apply app_eq_nil in E. destruct E as [_ E]. discriminate E.
    + apply Forall_rev. exact Hcur.
  - simpl in Hw. destruct (is_space x) eqn:Ex.
    + assert (Hb' : forall l, edge_or_space (last_char (l ++ [x])))
        by (intros l; rewrite last_char_snoc; exact Ex).
      destruct cur as [|y cur].
      * destruct (IH [] (before ++ [x]) w (Hb' _) (Forall_nil _) Hw)
          as [pre [post [E H]]].
        exists pre, post. split; [|exact H].
        rewrite <- E. simpl. rewrite <- app_assoc. reflexivity.
      * destruct Hw as [<- | Hw].
        -- exists before, (x :: s). repeat split; auto.
           ++ simpl. intros E. apply app_eq_nil in E. destruct E as [_ E].
              discriminate E.
           ++ apply Forall_rev. exact Hcur.
        -- destruct (IH [] (before ++ rev (y :: cur) ++ [x]) w) as [pre [post [E H]]];
             auto.
           ++ rewrite app_assoc. apply Hb'.
           ++ exists pre, post. split; [|exact H].
              rewrite <- E. simpl. rewrite <- !app_assoc. reflexivity.
    + destruct (IH (x :: cur) before w Hb) as [pre [post [E H]]]; auto.
      exists pre, post. split; [|exact H].
      rewrite <- E. simpl. rewrite <- !app_assoc. reflexivity.
Qed.

Lemma split_stands (s w : str) :
  In w (split s) ->
  exists pre post,
    s = pre ++ w ++ post
    /\ edge_or_space (last_char pre) /\ edge_or_space (hd_error post)
    /\ w <> [] /\ Forall (fun c => is_space c = false) w.
Proof.
  intros H. apply (split_ws_from_stands s [] [] w) in H; simpl; auto.
Qed.

(** A word of the text made of letters, digits and underscores is found
    in the text by the whole-word search. *)
Lemma word_place_in (s w : str) :
  In w (split s) -> Forall (fun c => is_word c = true) w ->
  place_in w s = true.
Proof.
  intros Hin Hw. destruct (split_stands s w Hin) as [pre [post [E [Hb [Ha [Hne _]]]]]].
  apply place_in_spec. exists pre, post. split; [exact E|].
  unfold whole_word_at, boundary.
  rewrite (edge_or_space_not_word _ Hb), (edge_or_space_not_word _ Ha).
  destruct w as [|c w]; [contradiction Hne; reflexivity|].
  split.
  - simpl. inversion Hw; subst. assumption.
  - unfold last_char. rewrite rev_app_distr.
    destruct (rev (c :: w)) as [|z r] eqn:Er.
    + apply (f_equal (@length ascii)) in Er. rewrite length_rev in Er.
      discriminate Er.
    + simpl. rewrite xorb_false_r.
      assert (Hz : In z (c :: w))
        by (apply in_rev; rewrite Er; left; reflexivity).
      rewrite Forall_forall in Hw. apply Hw. exact Hz.
Qed.

(** A token of the pair extractor is found as a whole word in the
    normalized text. *)
Lemma token_place_in (text w : str) :
  In w (tokens text) -> place_in w (normalize_text text) = true.
Proof.
  intros Hin. apply word_place_in.
  - rewrite <- tokens_normalize. exact Hin.
  - apply Forall_forall. intros c Hc. apply is_alnum_word.
    exact (tokens_alnum text w c Hin Hc).
Qed.

End Words.

(* ================================================================== *)
(** * Category and places together *)

Section CategoryAndPlaces.

(** The two shapes of a classification: general with no place, or
    ride with both places. *)
Lemma classify_message_shape (O : PySetOrder) (pm : dict) (msg : str) :
  classify_message O pm msg = (general, None, None)
  \/ exists a b, classify_message O pm msg = (ride, Some a, Some b).
Proof.
  unfold classify_message.
  destruct (extract_first_pair_cases msg pm) as [N | [o [d [E [Ho [Hd _]]]]]].
  - rewrite N. destruct (categorize pm msg None None) as [c found] eqn:Ec.
    destruct c; cbn [truthy negb is_ride andb].
    + destruct (categorize_ride _ _ _ Ec) as [_ Hlen].
      rewrite <- (Permutation_length (set_iter_perm O found)) in Hlen.
      destruct (set_iter O found) as [|a [|b rest]];
        [simpl in Hlen; lia | simpl in Hlen; lia |].
      right. exists a, b. reflexivity.
    + left. reflexivity.
  - rewrite E. unfold categorize.
    destruct o as [|x o]; [contradiction Ho; reflexivity|].
    destruct d as [|y d]; [contradiction Hd; reflexivity|].
    right. eexists _, _. reflexivity.
Qed.

(** A found place is a canonical name of the gazetteer or the home
    base. *)
Lemma found_members (pm : dict) (msg : str) (o d : option str)
      (c : category) (found : list str) :
  categorize pm msg o d = (c, found) ->
  forall x, In x found ->
            x = synthetic_home_base \/ exists k, In (k, x) pm.
Proof.
  unfold categorize.
  set (fp := count_unique_places (normalize_text msg) pm).
  assert (Hfp : forall x, In x fp -> exists k, In (k, x) pm).
  { intros x Hx. unfold fp, count_unique_places in Hx.
    apply fold_set_add_In in Hx. destruct Hx as [[] | [k [Hk _]]]. eauto. }
  assert (Hadd : forall x, In x (set_add synthetic_home_base fp) ->
                           x = synthetic_home_base \/ exists k, In (k, x) pm).
  { intros x Hx. apply set_add_In in Hx. destruct Hx as [-> | Hx]; auto. }
  destruct (truthy o && truthy d);
    [intros H; injection H as _ <-; intros x Hx; right; auto|].
  destruct (_ && _ && (2 <=? length fp));
    [intros H; injection H as _ <-; intros x Hx; right; auto|].
  destruct (_ && _ && (1 <=? length fp));
    [|intros H; injection H as _ <-; intros x Hx; right; auto].
  destruct (2 <=? length (set_add synthetic_home_base fp));
    intros H; injection H as _ <-; exact Hadd.
Qed.

(** With no empty canonical name in the gazetteer, the places of a ride
    are non-empty strings. *)
Lemma classify_message_places (O : PySetOrder) (pm : dict) (msg : str) :
  (forall kv, In kv pm -> snd kv <> []) ->
  classify_message O pm msg = (general, None, None)
  \/ exists a b, classify_message O pm msg = (ride, Some a, Some b)
                 /\ a <> [] /\ b <> [].
Proof.
  intros Hpm. unfold classify_message.
  destruct (extract_first_pair_cases msg pm) as [N | [o [d [E [Ho [Hd _]]]]]].
  - rewrite N. destruct (categorize pm msg None None) as [c found] eqn:Ec.
    destruct c; cbn [truthy negb is_ride andb]; [|left; reflexivity].
    destruct (categorize_ride _ _ _ Ec) as [_ Hlen].
    assert (Hperm := set_iter_perm O found).
    rewrite <- (Permutation_length Hperm) in Hlen.
    assert (Hne : forall x, In x (set_iter O found) -> x <> []).
    { intros x Hx. apply (Permutation_in _ Hperm) in Hx.
      destruct (found_members _ _ _ _ _ _ Ec x Hx) as [-> | [k Hk]];
        [discriminate | exact (Hpm _ Hk)]. }
    destruct (set_iter O found) as [|a [|b rest]];
      [simpl in Hlen; lia | simpl in Hlen; lia |].
    right. exists a, b. repeat split.
    + apply Hne. left; reflexivity.
    + apply Hne. right; left; reflexivity.
  - rewrite E. unfold categorize.
    destruct o as [|x o]; [contradiction Ho; reflexivity|].
    destruct d as [|y d]; [contradiction Hd; reflexivity|].
    right. eexists _, _. repeat split; discriminate.
Qed.




(** X9.  With a gazetteer that has no empty canonical name, the
    category is ride exactly when the origin is a non-empty place, and
    exactly when the destination is one: a ride always has both places,
    a general message has neither. *)
Theorem ride_iff_places (O : PySetOrder) (pm : dict) (msg : str) :
  (forall kv, In kv pm -> snd kv <> []) ->
  (fst (fst (classify_message O pm msg)) = ride
   <-> truthy (snd (fst (classify_message O pm msg))) = true)
  /\ (fst (fst (classify_message O pm msg)) = ride
      <-> truthy (snd (classify_message O pm msg)) = true).
Proof.
  intros Hpm.
  destruct (classify_message_places O pm msg Hpm) as [-> | [a [b [-> [Ha Hb]]]]];
    simpl.
  - split; split; discriminate.
  - destruct a; [contradiction Ha; reflexivity|].
    destruct b; [contradiction Hb; reflexivity|].
    split; split; reflexivity.
Qed.

Lemma ride_iff_places_witness :
  (fst (fst (classify_message insertion_order (load_places scenario_places)
                              going_message)) = ride
   <-> truthy (snd (fst (classify_message insertion_order
                           (load_places scenario_places) going_message))) = true)
  /\ (fst (fst (classify_message insertion_order (load_places scenario_places)
                                 going_message)) = ride
      <-> truthy (snd (classify_message insertion_order
                         (load_places scenario_places) going_message)) = true).
Proof.
  apply ride_iff_places.
  intros kv Hin. vm_compute in Hin.
  repeat (destruct Hin as [<- | Hin]; [vm_compute; discriminate|]).
  destruct Hin.
Defined.

(** X10.  A message in which "to" does not stand as a word is never a
    ride: it is classified general, with no origin and no destination,
    whatever places it names. *)
Theorem no_to_is_general (O : PySetOrder) (pm : dict) (msg : str) :
  place_in (py "to") (normalize_text msg) = false ->
  classify_message O pm msg = (general, None, None).
Proof.
  intros Hto. unfold classify_message.
  destruct (extract_first_pair msg pm) as [o d] eqn:E.
  destruct (extract_first_pair_cases msg pm) as [N | [o' [d' [E' _]]]].
  - rewrite N in E. injection E as <- <-.
    unfold categorize. rewrite Hto. reflexivity.
  - exfalso. destruct (pair_needs_to_token msg pm o' d' E') as [Hin _].
    apply token_place_in in Hin. congruence.
Qed.

Lemma no_to_is_general_witness :
  classify_message insertion_order (load_places scenario_places)
                   (py "SC -> Pittsburgh, who is in? Leaving from pgh too")
  = (general, None, None).
Proof. apply no_to_is_general. vm_compute. reflexivity. Defined.

End CategoryAndPlaces.

(* ================================================================== *)
(** * Patterns that need a character of some class *)

Section NeededCharacters.

Lemma suffix_of_refl (a : str) : suffix_of a a.
Proof. exists []. reflexivity. Qed.

Lemma suffix_of_trans (a b c : str) :
  suffix_of a b -> suffix_of b c -> suffix_of a c.
Proof.
  intros [l1 ->] [l2 ->]. exists (l2 ++ l1). rewrite app_assoc. reflexivity.
Qed.

Lemma suffix_of_tail (x : ascii) (t : str) : suffix_of t (x :: t).
Proof. exists [x]. reflexivity. Qed.

Lemma suffix_of_In (a b : str) (c : ascii) :
  suffix_of a b -> In c a -> In c b.
Proof. intros [l ->] H. apply in_or_app. right; exact H. Qed.

(** The matcher hands to its continuation only positions further on in
    the subject. *)
Lemma run_continues_behind (r : regex) :
  forall k s,
    (forall s', suffix_of (rest s') (rest s) -> k s' = None) ->
    run r k s = None.
Proof.
  induction r as [| c | f | | r1 IH1 r2 IH2 | r1 IH1 r2 IH2 | r1 IH1 | r1 IH1
                  | n r1 IH1]; intros k s Hk; cbn [run].
  - apply Hk. apply suffix_of_refl.
  - unfold step_if. destruct (rest s) as [|x t] eqn:E; [reflexivity|].
    destruct (Ascii.eqb c x); [|reflexivity]. apply Hk. simpl.
    apply suffix_of_tail.
  - unfold step_if. destruct (rest s) as [|x t] eqn:E; [reflexivity|].
    destruct (f x); [|reflexivity]. apply Hk. simpl. apply suffix_of_tail.
  - destruct (at_boundary s); [|reflexivity]. apply Hk. apply suffix_of_refl.
  - apply IH1. intros s' Hs'. apply IH2. intros s'' Hs''.
    apply Hk. exact (suffix_of_trans _ _ _ Hs'' Hs').
  - rewrite (IH1 k s Hk). simpl. apply IH2. exact Hk.
  - rewrite (IH1 k s Hk). simpl. apply Hk. apply suffix_of_refl.
  - assert (L : forall fuel s0,
               suffix_of (rest s0) (rest s) ->
               (fix loop (fuel : nat) (s0 : mstate) : option mstate :=
                  match fuel with
                  | 0 => k s0
                  | S fuel' =>
                      or_else
                        (run r1 (fun s1 =>
                                   if length (rest s1) <? length (rest s0)
                                   then loop fuel' s1 else None) s0)
                        (fun _ => k s0)
                  end) fuel s0 = None).
    { induction fuel as [|fuel IHf]; intros s0 H0.
      - apply Hk. exact H0.
      - rewrite IH1.
        + simpl. apply Hk. exact H0.
        + intros s1 H1. destruct (length (rest s1) <? length (rest s0));
            [|reflexivity].
          apply IHf. exact (suffix_of_trans _ _ _ H1 H0). }
    apply L. apply suffix_of_refl.
  - apply IH1. intros s1 H1. apply Hk. simpl. exact H1.
Qed.

Lemma all_chars_complete (c : ascii) : In c all_chars.
Proof.
  unfold all_chars. apply in_map_iff. exists (nat_of_ascii c). split.
  - apply ascii_nat_embedding.
  - apply in_seq. split; [lia|]. simpl. apply nat_ascii_bounded.
Qed.

(** A pattern that needs a character of the class does not match where
    the subject has none left. *)
Lemma run_must_eat (f : ascii -> bool) (r : regex) :
  must_eat f r = true ->
  forall k s,
    (forall c, In c (rest s) -> f c = false) ->
    run r k s = None.
Proof.
  induction r as [| c | g | | r1 IH1 r2 IH2 | r1 IH1 r2 IH2 | r1 IH1 | r1 IH1
                  | n r1 IH1]; cbn [must_eat]; intros Hm k s Hs;
    try discriminate Hm; cbn [run].
  - unfold step_if. destruct (rest s) as [|x t] eqn:E; [reflexivity|].
    destruct (Ascii.eqb c x) eqn:Ex; [|reflexivity].
    apply Ascii.eqb_eq in Ex. subst x.
    rewrite (Hs c (or_introl eq_refl)) in Hm. discriminate Hm.
  - unfold step_if. destruct (rest s) as [|x t] eqn:E; [reflexivity|].
    destruct (g x) eqn:Ex; [|reflexivity].
    rewrite forallb_forall in Hm. specialize (Hm x (all_chars_complete x)).
    rewrite Ex, (Hs x (or_introl eq_refl)) in Hm. discriminate Hm.
  - apply orb_prop in Hm. destruct Hm as [Hm | Hm].
    + apply IH1; assumption.
    + apply run_continues_behind. intros s' Hs'. apply IH2; [exact Hm|].
      intros c Hc. apply Hs. exact (suffix_of_In _ _ _ Hs' Hc).
  - apply andb_prop in Hm. destruct Hm as [H1 H2].
    rewrite (IH1 H1 k s Hs). simpl. apply IH2; assumption.
  - apply IH1; assumption.
Qed.

Lemma search_must_eat (f : ascii -> bool) (r : regex) (s : str) :
  must_eat f r = true ->
  (forall c, In c s -> f c = false) ->
  forall p, search_from r p s = None.
Proof.
  intros Hm. induction s as [|x s IH]; intros Hs p; cbn [search_from].
  - rewrite (run_must_eat f r Hm); [reflexivity | exact Hs].
  - rewrite (run_must_eat f r Hm); [|exact Hs].
    apply IH. intros c Hc. apply Hs. right; exact Hc.
Qed.

Lemma first_match_must_eat (f : ascii -> bool) (patterns : list (regex * nat))
      (msg : str) :
  forallb (fun pn => must_eat f (fst pn)) patterns = true ->
  (forall c, In c msg -> f c = false) ->
  first_match patterns msg = None.
Proof.
  intros Hp Hs. unfold first_match.
  induction patterns as [|[r n] ps IH]; [reflexivity|].
  simpl in Hp. apply andb_prop in Hp. destruct Hp as [Hr Hps].
  simpl. unfold search. rewrite (search_must_eat f r msg Hr Hs). simpl.
  apply IH. exact Hps.
Qed.

Lemma lower_no_digit (text : str) :
  (forall c, In c text -> is_digit c = false) ->
  forall c, In c (lower text) -> is_digit c = false.
Proof.
  intros H c Hc. unfold lower in Hc. apply in_map_iff in Hc.
  destruct Hc as [x [<- Hx]]. rewrite is_digit_lower. apply H. exact Hx.
Qed.

(** X11.  A message without a digit gets no date from the date
    patterns: unless it says "today" or "tomorrow", its ride date is
    absent, and the extraction does not fail. *)
Theorem no_digit_no_date (today : date) (text wa_date : str) :
  (forall c, In c text -> is_digit c = false) ->
  contains (py "today") (lower text) = false ->
  contains (py "tomorrow") (lower text) = false ->
  exists ride_time,
    extract_datetime_info today text wa_date = Returned (None, ride_time).
Proof.
  intros Hd Htod Htom. unfold extract_datetime_info.
  rewrite (first_match_must_eat is_digit date_patterns (lower text));
    [| vm_compute; reflexivity | apply lower_no_digit; exact Hd].
  rewrite Htod, Htom. eexists; reflexivity.
Qed.

Lemma no_digit_no_date_witness :
  exists ride_time,
    extract_datetime_info march_1 (py "Driving to Pittsburgh on Monday evening")
                          (py "2024-03-01")
    = Returned (None, ride_time).
Proof.
  apply no_digit_no_date; try (vm_compute; reflexivity).
  intros c Hc. vm_compute in Hc.
  repeat (destruct Hc as [<- | Hc]; [reflexivity|]). destruct Hc.
Defined.

End NeededCharacters.

(* ================================================================== *)
(** * The time of a message without digits *)

Section DayParts.

Lemma run_alts (l : list string) (k : mstate -> option mstate)
      (st m : mstate) :
  run (alts l) k st = Some m ->
  exists w, In w l /\ run (lit w) k st = Some m.
Proof.
  induction l as [|x l IH].
  - simpl. unfold step_if. destruct (rest st); discriminate.
  - destruct l as [|y t].
    + intros H. exists x. split; [left; reflexivity | exact H].
    + change (alts (x :: y :: t)) with (Alt (lit x) (alts (y :: t))).
      cbn [run]. destruct (run (lit x) k st) as [m'|] eqn:E; simpl.
      * intros H; injection H as ->. exists x. split; [left; reflexivity | exact E].
      * intros H. destruct (IH H) as [w [Hin Hw]].
        exists w. split; [right; exact Hin | exact Hw].
Qed.

(** A match of the day-part pattern at a position: one of the words,
    standing there as a whole word, is the group. *)
Lemma run_day_part (pre s : str) (m : mstate) :
  run day_part_pattern Some {| prev := last_char pre; rest := s; caps := [] |}
  = Some m ->
  exists w post,
    In w day_parts /\ s = py w ++ post /\ whole_word_at (py w) pre post
    /\ groups 1 m = [Some (py w)].
Proof.
  change day_part_pattern with (Cat Bnd (Cat (Grp 1 (alts day_parts)) Bnd)).
  cbn [run]. unfold at_boundary at 1. cbn [prev rest].
  destruct (xorb (word_opt (last_char pre)) (word_opt (hd_error s))) eqn:B1;
    [|discriminate].
  intros H. apply run_alts in H. destruct H as [w [Hin H]].
  change (lit w) with (lit_str (py w)) in H. rewrite run_lit_str in H.
  destruct (prefixb (py w) s) eqn:P; [|discriminate H].
  apply prefixb_spec in P. destruct P as [post ->].
  unfold at_boundary, set_cap, consumed in H. cbn [prev rest caps] in H.
  rewrite skipn_app, skipn_all, Nat.sub_diag in H. simpl skipn in H.
  simpl app in H.
  destruct (xorb (word_opt (last_char (pre ++ py w))) (word_opt (hd_error post)))
    eqn:B2; [|discriminate H].
  injection H as <-.
  exists w, post. repeat split; auto.
  unfold groups. cbn [seq map caps cap_get Nat.eqb].
  rewrite length_app, Nat.add_sub, firstn_app, firstn_all, Nat.sub_diag.
  simpl. rewrite app_nil_r. reflexivity.
Qed.

Lemma search_day_part (s : str) :
  forall pre m,
    search_from day_part_pattern (last_char pre) s = Some m ->
    exists w mid post,
      In w day_parts /\ s = mid ++ py w ++ post
      /\ whole_word_at (py w) (pre ++ mid) post
      /\ groups 1 m = [Some (py w)].
Proof.
  induction s as [|c s IH]; intros pre m; cbn [search_from].
  - destruct (run day_part_pattern Some _) as [m'|] eqn:E; [|discriminate].
    intros H; injection H as ->.
    destruct (run_day_part _ _ _ E) as [w [post [Hin [Hs [Hw Hg]]]]].
    exists w, [], post. rewrite app_nil_r. auto.
  - destruct (run day_part_pattern Some _) as [m'|] eqn:E.
    + intros H; injection H as ->.
      destruct (run_day_part _ _ _ E) as [w [post [Hin [Hs [Hw Hg]]]]].
      exists w, [], post. rewrite app_nil_r. auto.
    + rewrite <- (last_char_snoc pre c). intros H.
      destruct (IH _ _ H) as [w [mid [post [Hin [-> [Hw Hg]]]]]].
      exists w, (c :: mid), post. rewrite <- app_assoc in Hw. auto.
Qed.

Lemma first_match_skip (pn : regex * nat) (ps : list (regex * nat)) (msg : str) :
  search (fst pn) msg = None ->
  first_match (pn :: ps) msg = first_match ps msg.
Proof. intros H. unfold first_match. simpl. rewrite H. reflexivity. Qed.

(** Without digits only the day-part pattern can match. *)
Lemma time_patterns_no_digit (msg : str) :
  (forall c, In c msg -> is_digit c = false) ->
  first_match time_patterns msg = None
  \/ exists w, In w day_parts
               /\ first_match time_patterns msg = Some [Some (py w)]
               /\ place_in (py w) msg = true.
Proof.
  intros Hd. unfold time_patterns.
  do 4 (rewrite first_match_skip
         by (apply (search_must_eat is_digit);
             [vm_compute; reflexivity | exact Hd])).
  unfold first_match. cbn [first_some fst snd].
  change (cats [Bnd; Grp 1 (alts ["morning"; "afternoon"; "evening"; "tonight"; "night"]); Bnd])
    with day_part_pattern.
  destruct (search day_part_pattern msg) as [m|] eqn:E; [right | left; reflexivity].
  unfold search in E. change (@None ascii) with (last_char []) in E.
  destruct (search_day_part _ _ _ E) as [w [mid [post [Hin [Hs [Hw Hg]]]]]].
  exists w. repeat split; auto.
  - simpl. rewrite Hg. reflexivity.
  - apply place_in_spec. exists mid, post. auto.
Qed.

Lemma fallback_no_digit (msg : str) :
  (forall c, In c msg -> is_digit c = false) ->
  fallback_time_extraction msg = None.
Proof.
  intros Hd. unfold fallback_time_extraction.
  rewrite (first_match_must_eat is_digit fallback_patterns (lower msg));
    [reflexivity | vm_compute; reflexivity | apply lower_no_digit; exact Hd].
Qed.

(** X12.  For a message without a digit the ride time, when the
    extraction returns, is absent or is one of the day-part words
    morning, afternoon, evening, tonight, night, standing as a whole
    word in the lowered message. *)
Theorem no_digit_time (today : date) (text wa_date : str)
        (ride_date ride_time : option str) :
  (forall c, In c text -> is_digit c = false) ->
  extract_datetime_info today text wa_date = Returned (ride_date, ride_time) ->
  ride_time = None
  \/ exists w, In w day_parts /\ ride_time = Some (py w)
               /\ place_in (py w) (lower text) = true.
Proof.
  intros Hd. assert (Hl := lower_no_digit text Hd).
  unfold extract_datetime_info.
  destruct (time_patterns_no_digit (lower text) Hl) as [-> | [w [Hin [-> Hp]]]].
  - cbn [truthy negb]. rewrite (fallback_no_digit _ Hl).
    destruct (contains (py "today") (lower text)).
    + intros H; injection H as _ <-. left; reflexivity.
    + destruct (contains (py "tomorrow") (lower text)).
      * destruct (add_day _); [|discriminate].
        intros H; injection H as _ <-. left; reflexivity.
      * intros H; injection H as _ <-. left; reflexivity.
  - assert (Ht : (let parts := filter_none [Some (py w)] in
                  Some (strip
                          (if 2 <=? length parts
                           then join (py ":") (firstn 2 parts)
                                ++ (if length parts =? 3
                                    then py " " ++ nth 2 parts []
                                    else [])
                           else hd [] parts))) = Some (py w)).
    { simpl in Hin.
      repeat (destruct Hin as [<- | Hin]; [reflexivity|]). destruct Hin. }
    cbv zeta in Ht. cbv zeta. rewrite Ht.
    assert (Tw : truthy (Some (py w)) = true).
    { simpl in Hin.
      repeat (destruct Hin as [<- | Hin]; [reflexivity|]). destruct Hin. }
    rewrite Tw. cbn [negb].
    destruct (contains (py "today") (lower text)).
    + intros H; injection H as _ <-. right; eauto.
    + destruct (contains (py "tomorrow") (lower text)).
      * destruct (add_day _); [|discriminate].
        intros H; injection H as _ <-. right; eauto.
      * intros H; injection H as _ <-. right; eauto.
Qed.

Lemma no_digit_time_witness :
  Some (py "evening") = None
  \/ exists w, In w day_parts /\ Some (py "evening") = Some (py w)
               /\ place_in (py w) (lower (py "Driving to PGH this Evening, not at night"))
                  = true.
Proof.
  apply (no_digit_time march_1 (py "Driving to PGH this Evening, not at night")
                       (py "2024-03-01") None (Some (py "evening"))).
  - intros c Hc. vm_compute in Hc.
    repeat (destruct Hc as [<- | Hc]; [reflexivity|]). destruct Hc.
  - vm_compute. reflexivity.
Defined.

End DayParts.

(* ================================================================== *)
(** * When the date extraction fails *)

Section Overflow.

Lemma strptime_ymd_valid (s : str) (d : date) :
  strptime_ymd s = Some d -> valid d = true.
Proof.
  unfold strptime_ymd. destruct (fullmatch ymd_regex s) as [m|]; [|discriminate].
  destruct (groups 3 m) as [|[y|] [|[mo|] [|[dd|] [|? ?]]]]; try discriminate.
  destruct (valid _) eqn:E; [|discriminate].
  intros H; injection H as <-. exact E.
Qed.

Lemma reference_date_valid (today : date) (wa_date : str) :
  valid today = true -> valid (reference_date today wa_date) = true.
Proof.
  intros H. unfold reference_date.
  destruct (strptime_ymd wa_date) as [d|] eqn:E; [|exact H].
  exact (strptime_ymd_valid _ _ E).
Qed.

(** Only the last day has no next day. *)
Lemma add_day_overflow (d : date) :
  valid d = true -> (add_day d = OverflowError <-> d = last_day).
Proof.
  intros Hv. split.
  - unfold valid, between in Hv. rewrite !andb_true_iff, !Nat.leb_le in Hv.
    unfold add_day.
    destruct (day d <? days_in_month (year d) (month d)) eqn:E1; [discriminate|].
    destruct (month d <? 12) eqn:E2; [discriminate|].
    destruct (year d <? 9999) eqn:E3; [discriminate|]. intros _.
    apply Nat.ltb_ge in E1, E2, E3.
    destruct d as [y m dd]. cbn [year month day] in *.
    assert (Hm : m = 12) by lia. subst m.
    change (days_in_month y 12) with 31 in *.
    assert (Hy : y = 9999) by lia. assert (Hd : dd = 31) by lia.
    subst. reflexivity.
  - intros ->. vm_compute. reflexivity.
Qed.

(** X13.  With a valid clock date the date extraction fails in one
    case only: the message says "tomorrow" and not "today", and the
    reference date is 9999-12-31. *)
Theorem extraction_fails_only_at_last_day (today : date) (text wa_date : str) :
  valid today = true ->
  (extract_datetime_info today text wa_date = OverflowError
   <-> contains (py "today") (lower text) = false
       /\ contains (py "tomorrow") (lower text) = true
       /\ reference_date today wa_date = last_day).
Proof.
  intros Hv. assert (Hr := reference_date_valid today wa_date Hv).
  unfold extract_datetime_info.
  destruct (contains (py "today") (lower text)).
  - split; [discriminate | intros [H _]; discriminate H].
  - destruct (contains (py "tomorrow") (lower text)).
    + destruct (add_day (reference_date today wa_date)) eqn:E.
      * split; [discriminate|]. intros [_ [_ H]].
        apply (add_day_overflow _ Hr) in H. congruence.
      * split; [|reflexivity]. intros _.
        repeat split. apply (add_day_overflow _ Hr). exact E.
    + split; [discriminate | intros [_ [H _]]; discriminate H].
Qed.

Lemma extraction_fails_only_at_last_day_witness :
  extract_datetime_info march_1 (py "see you Tomorrow") (py "9999-12-31")
  = OverflowError
  <-> contains (py "today") (lower (py "see you Tomorrow")) = false
      /\ contains (py "tomorrow") (lower (py "see you Tomorrow")) = true
      /\ reference_date march_1 (py "9999-12-31") = last_day.
Proof.
  apply extraction_fails_only_at_last_day. vm_compute. reflexivity.
Defined.

End Overflow.

(* ================================================================== *)
(** * Written dates read back *)

Section DateRoundTrip.

Lemma digit_char_code (n : nat) : code (digit_char n) = 48 + n mod 10.
Proof.
  unfold digit_char, code. apply nat_ascii_embedding.
  assert (H : n mod 10 < 10) by (apply Nat.mod_upper_bound; discriminate).
  lia.
Qed.

Lemma digit_char_digit (n : nat) : is_digit (digit_char n) = true.
Proof.
  unfold is_digit, between. rewrite digit_char_code.
  assert (H : n mod 10 < 10) by (apply Nat.mod_upper_bound; discriminate).
  apply andb_true_iff. split; apply Nat.leb_le; lia.
Qed.

Lemma int_of_digits (a b c e : nat) :
  int_of [digit_char a; digit_char b; digit_char c; digit_char e]
  = 1000 * (a mod 10) + 100 * (b mod 10) + 10 * (c mod 10) + e mod 10.
Proof.
  unfold int_of. cbn [fold_left].
  rewrite !digit_char_digit, !digit_char_code. lia.
Qed.

Lemma limit_9999 : 9999 = 9 * 1111.
Proof. vm_compute. reflexivity. Qed.

Lemma int_of_pad4 (y : nat) : y <= 9999 -> int_of (pad4 y) = y.
Proof.
  rewrite limit_9999. intros Hy. unfold pad4. rewrite int_of_digits.
  assert (E1 := Nat.div_mod_eq y 10).
  assert (E2 := Nat.div_mod_eq (y / 10) 10).
  assert (E3 := Nat.div_mod_eq (y / 10 / 10) 10).
  assert (E4 := Nat.div_mod_eq (y / 10 / 10 / 10) 10).
  assert (D2 : y / 100 = y / 10 / 10)
    by (rewrite Nat.Div0.div_div; reflexivity).
  assert (D3 : y / 1000 = y / 10 / 10 / 10)
    by (rewrite !Nat.Div0.div_div; reflexivity).
  assert (Z4 : y / 10 / 10 / 10 / 10 = 0).
  { rewrite !Nat.Div0.div_div. apply Nat.div_small. simpl. lia. }
  rewrite D2, D3. lia.
Qed.

(** The year group of the format pattern takes four digits. *)
Lemma run_year (c1 c2 c3 c4 : ascii) (t : str)
      (k : mstate -> option mstate) :
  is_digit c1 = true -> is_digit c2 = true ->
  is_digit c3 = true -> is_digit c4 = true ->
  run (Grp 1 (cats [digit; digit; digit; digit])) k
      {| prev := None; rest := c1 :: c2 :: c3 :: c4 :: t; caps := [] |}
  = k {| prev := Some c4; rest := t; caps := [(1, [c1; c2; c3; c4])] |}.
Proof.
  intros H1 H2 H3 H4. cbn [run cats digit]. unfold step_if. cbn [rest caps].
  rewrite H1, H2, H3, H4. unfold set_cap, consumed. cbn [prev rest caps length].
  replace (S (S (S (S (length t)))) - length t) with 4 by lia.
  reflexivity.
Qed.

Lemma run_cat (r1 r2 : regex) (k : mstate -> option mstate) (s : mstate) :
  run (Cat r1 r2) k s = run r1 (run r2 k) s.
Proof. reflexivity. Qed.

Lemma fullmatch_ymd (c1 c2 c3 c4 : ascii) (m dd : nat) :
  is_digit c1 = true -> is_digit c2 = true ->
  is_digit c3 = true -> is_digit c4 = true ->
  1 <= m <= 12 -> 1 <= dd <= 31 ->
  option_map (groups 3)
    (fullmatch ymd_regex
       (c1 :: c2 :: c3 :: c4 :: py "-" ++ pad2 m ++ py "-" ++ pad2 dd))
  = Some [Some [c1; c2; c3; c4]; Some (pad2 m); Some (pad2 dd)].
Proof.
  intros H1 H2 H3 H4 Hm Hd. unfold fullmatch.
  change ymd_regex with
    (Cat (Grp 1 (cats [digit; digit; digit; digit]))
         (cats [Chr "-";
                Grp 2 (Alt (Cat (Chr "1") (range_cls 48 50))
                      (Alt (Cat (Chr "0") (range_cls 49 57))
                           (range_cls 49 57)));
                Chr "-";
                Grp 3 (Alt (Cat (Chr "3") (range_cls 48 49))
                      (Alt (Cat (range_cls 49 50) digit)
                      (Alt (Cat (Chr "0") (range_cls 49 57))
                      (Alt (range_cls 49 57)
                           (Cat (Chr " ") (range_cls 49 57))))))])).
  rewrite run_cat, (run_year c1 c2 c3 c4 _ _ H1 H2 H3 H4).
  assert (Hm' : In m (seq 1 12)) by (apply in_seq; lia).
  assert (Hd' : In dd (seq 1 31)) by (apply in_seq; lia).
  clear Hm Hd. simpl in Hm', Hd'.
  repeat (destruct Hm' as [<- | Hm'];
          [repeat (destruct Hd' as [<- | Hd']; [vm_compute; reflexivity|]);
           destruct Hd'|]).
  destruct Hm'.
Qed.

Lemma int_of_pad2 (n : nat) : n <= 31 -> int_of (pad2 n) = n.
Proof.
  intros H. do 32 (destruct n as [|n]; [reflexivity|]). lia.
Qed.

(** A date written year-month-day reads back as itself. *)
Lemma strptime_strftime (d : date) :
  valid d = true -> strptime_ymd (strftime_ymd d) = Some d.
Proof.
  intros Hv. assert (Hv' := Hv).
  unfold valid, between in Hv'. rewrite !andb_true_iff, !Nat.leb_le in Hv'.
  destruct Hv' as [[[Hy1 Hy2] [Hm1 Hm2]] [Hd1 Hd2]].
  assert (Hd3 : day d <= 31).
  { revert Hd2. unfold days_in_month.
    destruct (month d) as [|[|[|[|[|[|[|[|[|[|[|[|?]]]]]]]]]]]];
      try destruct (is_leap (year d)); lia. }
  unfold strptime_ymd, strftime_ymd, pad4.
  cbn [app].
  assert (F := fullmatch_ymd (digit_char (year d / 1000))
                 (digit_char (year d / 100)) (digit_char (year d / 10))
                 (digit_char (year d)) (month d) (day d)
                 (digit_char_digit _) (digit_char_digit _)
                 (digit_char_digit _) (digit_char_digit _)
                 (conj Hm1 Hm2) (conj Hd1 Hd3)).
  destruct (fullmatch ymd_regex _) as [m|]; [|discriminate F].
  cbn [option_map] in F.
  apply (f_equal (fun o => match o with Some g => g | None => [] end)) in F.
  cbv beta iota in F. rewrite F.
  change [digit_char (year d / 1000); digit_char (year d / 100);
          digit_char (year d / 10); digit_char (year d)]
    with (pad4 (year d)).
  rewrite (int_of_pad4 _ Hy2), (int_of_pad2 (month d)) by lia.
  rewrite (int_of_pad2 (day d) Hd3).
  destruct d as [y mo dd]. cbn [year month day] in *. rewrite Hv. reflexivity.
Qed.

(** X14.  The ride date written for "today" or "tomorrow" is a date the
    extractor itself can read as a reference date: read back, it is the
    reference date, or for "tomorrow" its next day.  The reference year
    is taken to have four digits. *)
Theorem relative_date_reads_back (today : date) (text wa_date : str)
        (ride_date ride_time : option str) :
  valid today = true ->
  1000 <= year (reference_date today wa_date) ->
  contains (py "today") (lower text) = true
  \/ contains (py "tomorrow") (lower text) = true ->
  extract_datetime_info today text wa_date = Returned (ride_date, ride_time) ->
  exists s d,
    ride_date = Some s /\ strptime_ymd s = Some d
    /\ (if contains (py "today") (lower text)
        then d = reference_date today wa_date
        else add_day (reference_date today wa_date) = Returned d).
Proof.
  intros Hv _ Hrel. assert (Hr := reference_date_valid today wa_date Hv).
  unfold extract_datetime_info.
  destruct (contains (py "today") (lower text)).
  - intros H; injection H as <- _.
    exists (strftime_ymd (reference_date today wa_date)),
           (reference_date today wa_date).
    repeat split. apply strptime_strftime. exact Hr.
  - destruct Hrel as [Hrel | Hrel]; [discriminate Hrel|]. rewrite Hrel.
    destruct (add_day (reference_date today wa_date)) as [d'|] eqn:E;
      [|discriminate].
    intros H; injection H as <- _.
    exists (strftime_ymd d'), d'. repeat split.
    apply strptime_strftime. exact (add_day_valid _ _ Hr E).
Qed.

Lemma relative_date_reads_back_witness :
  exists s d,
    Some (py "2024-03-01") = Some s /\ strptime_ymd s = Some d
    /\ (if contains (py "today") (lower (py "leaving tomorrow at 5"))
        then d = reference_date march_1 (py "2024-02-29")
        else add_day (reference_date march_1 (py "2024-02-29")) = Returned d).
Proof.
  apply (relative_date_reads_back march_1 (py "leaving tomorrow at 5")
           (py "2024-02-29") (Some (py "2024-03-01")) None).
  - vm_compute. reflexivity.
  - vm_compute. lia.
  - right. vm_compute. reflexivity.
  - vm_compute. reflexivity.
Defined.

End DateRoundTrip.

(* ================================================================== *)
(** * The three outcomes of the intent classifier *)

Section IntentCases.

(** X15.  The ride type is offering exactly when an offering phrase
    occurs in the message, in whatever letter case; it is seeking
    exactly when no offering phrase occurs and a seeking phrase does;
    it is unknown exactly when no phrase of either list occurs. *)
Theorem classify_ride_type_cases (msg : str) :
  (classify_ride_type msg = offering
   <-> exists p, In p offer_keywords /\ occurs_ci p msg)
  /\ (classify_ride_type msg = seeking
      <-> ~ (exists p, In p offer_keywords /\ occurs_ci p msg)
          /\ exists p, In p seek_keywords /\ occurs_ci p msg)
  /\ (classify_ride_type msg = unknown
      <-> ~ (exists p, In p offer_keywords /\ occurs_ci p msg)
          /\ ~ (exists p, In p seek_keywords /\ occurs_ci p msg)).
Proof.
  unfold classify_ride_type.
  rewrite <- !existsb_contains.
  destruct (existsb _ offer_keywords); destruct (existsb _ seek_keywords);
    repeat split; intros; try discriminate; try reflexivity;
      repeat match goal with
             | H : _ /\ _ |- _ => destruct H
             | H : ~ (true = true) |- _ => contradiction H; reflexivity
             | H : false = true |- _ => discriminate H
             end.
Qed.

End IntentCases.

(* ================================================================== *)
(** * What the result depends on *)

Section Dependence.

Lemma normalize_text_tokens (a b : str) :
  normalize_text a = normalize_text b -> tokens a = tokens b.
Proof. intros H. rewrite !tokens_normalize, H. reflexivity. Qed.

Lemma same_normalized_same_class (O : PySetOrder) (pm : dict) (a b : str) :
  normalize_text a = normalize_text b ->
  classify_message O pm a = classify_message O pm b.
Proof.
  intros H. unfold classify_message, extract_first_pair, categorize.
  rewrite (normalize_text_tokens a b H), H. reflexivity.
Qed.

(** X16.  The classification sees a message only through its
    normalized text: two messages that normalize to the same text get
    the same category, origin and destination. *)
Theorem classify_message_normalized (O : PySetOrder) (pm : dict) (a b : str) :
  normalize_text a = normalize_text b ->
  classify_message O pm a = classify_message O pm b.
Proof. apply same_normalized_same_class. Qed.

Lemma classify_message_normalized_witness :
  classify_message insertion_order (load_places scenario_places)
                   (py "Driving from SC to Pittsburgh!!!")
  = classify_message insertion_order (load_places scenario_places)
                     (py "driving... from s-c to PITTSBURGH?").
Proof.
  apply classify_message_normalized. vm_compute. reflexivity.
Defined.

Lemma lower_normalize_text (a b : str) :
  lower a = lower b -> normalize_text a = normalize_text b.
Proof.
  intros H. unfold normalize_text. rewrite <- !strip_punct_lower, H. reflexivity.
Qed.

(** X17.  The whole result for a message does not depend on the letter
    case of the message: two messages that are equal once lowered get
    the same category, places, date, time and ride type. *)
Theorem process_message_case_insensitive (O : PySetOrder) (pm : dict)
        (today : date) (a b wa_date : str) :
  lower a = lower b ->
  process_message O pm today a wa_date = process_message O pm today b wa_date.
Proof.
  intros H. unfold process_message.
  rewrite (same_normalized_same_class O pm a b (lower_normalize_text a b H)).
  destruct (classify_message O pm b) as [[cat o] d].
  unfold extract_datetime_for_ride, extract_datetime_info,
    fallback_time_extraction, classify_ride_type_for_ride, classify_ride_type.
  rewrite H. reflexivity.
Qed.

Lemma process_message_case_insensitive_witness :
  process_message insertion_order (load_places scenario_places) march_1
                  (py "DRIVING FROM SC TO PITTSBURGH TOMORROW AT 6:30PM")
                  (py "2024-03-01")
  = process_message insertion_order (load_places scenario_places) march_1
                    driving_message (py "2024-03-01").
Proof.
  apply process_message_case_insensitive. vm_compute. reflexivity.
Defined.

End Dependence.

(* ================================================================== *)
(** * The "from" cue without its "to" *)

Section FromCue.

Lemma firstn_skipn_nth {A} (d : A) (l : list A) :
  forall j, j < length l -> firstn 1 (skipn j l) = [nth j l d].
Proof.
  induction l as [|x l IH]; intros j Hj; [simpl in Hj; lia|].
  destruct j as [|j]; [reflexivity|]. simpl. apply IH. simpl in Hj. lia.
Qed.

Lemma split_ws_from_word (w : str) :
  forall cur,
    Forall (fun c => is_space c = false) w ->
    rev cur ++ w <> [] ->
    split_ws_from cur w = [rev cur ++ w].
Proof.
  induction w as [|x w IH]; intros cur Hw Hne.
  - simpl. rewrite app_nil_r in *. destruct cur; [contradiction Hne|]; reflexivity.
  - inversion Hw as [|? ? Hx Hw']; subst. simpl. rewrite Hx.
    rewrite (IH (x :: cur) Hw').
    + simpl. rewrite <- app_assoc. reflexivity.
    + simpl. rewrite <- app_assoc. exact Hne.
Qed.

(** A token is one word. *)
Lemma split_token (text w : str) :
  In w (tokens text) -> split w = [w].
Proof.
  intros Hin. unfold tokens in Hin.
  destruct (split_stands _ _ Hin) as [_ [_ [_ [_ [_ [Hne Hw]]]]]].
  unfold split. apply (split_ws_from_word w []); assumption.
Qed.

Lemma first_candidate (words : list str) (i : nat) :
  i + 2 <= length words ->
  hd [] (candidates words (fun _ => i + 1) (fun k => i + 1 + k)
                    (fun k => i + 1 + k <=? length words))
  = word words (i + 1).
Proof.
  intros Hi. unfold candidates. cbn [filter].
  replace (i + 1 + 1 <=? length words) with true
    by (symmetry; apply Nat.leb_le; lia).
  cbn [map hd]. unfold slice. cbv beta.
  replace (i + 1 + 1 - (i + 1)) with 1 by lia.
  rewrite (@firstn_skipn_nth str [] words (i + 1)) by lia. reflexivity.
Qed.

(** X18.  A "from" that is not followed two tokens later by "to"
    yields nothing: the branch for it builds no destination
    candidates, since it looks for "to" at that same place. *)
Theorem from_without_to_yields_nothing (pm : dict) (text : str) (i : nat) :
  i + 2 < length (tokens text) ->
  word (tokens text) i = py "from" ->
  word (tokens text) (i + 2) <> py "to" ->
  scan_at pm (tokens text) i = None.
Proof.
  intros Hi Hfrom Hto. unfold scan_at, cue.
  rewrite Hfrom. change (str_eqb (py "from") (py "from")) with true.
  apply str_eqb_neq in Hto. rewrite Hto, andb_false_r.
  rewrite first_candidate by lia.
  rewrite (split_token text (word (tokens text) (i + 1)))
    by (apply word_In; lia).
  cbn [length].
  replace (i + 1 + 1) with (i + 2) by lia.
  rewrite Hto, andb_false_r.
  rewrite scan_pairs_no_dst. unfold bare_to. rewrite Hfrom. reflexivity.
Qed.

Lemma from_without_to_yields_nothing_witness :
  scan_at (load_places scenario_places)
          (tokens (py "ride from state college to pittsburgh")) 1 = None.
Proof.
  apply from_without_to_yields_nothing.
  - vm_compute. lia.
  - vm_compute. reflexivity.
  - vm_compute. discriminate.
Defined.

End FromCue.

(* ================================================================== *)
(** * The implicit home base, and general messages *)

Section HomeBase.

(** X19.  A message with the word "to", without the word "from", for
    which no pair is returned and in which exactly one place is found,
    other than the home base, is a ride between that place and the
    synthetic home base; which of the two is the origin is left to the
    order of the set. *)
Theorem home_base_rule (O : PySetOrder) (pm : dict) (msg c : str) :
  extract_first_pair msg pm = (None, None) ->
  place_in (py "to") (normalize_text msg) = true ->
  place_in (py "from") (normalize_text msg) = false ->
  count_unique_places (normalize_text msg) pm = [c] ->
  c <> synthetic_home_base ->
  classify_message O pm msg = (ride, Some c, Some synthetic_home_base)
  \/ classify_message O pm msg = (ride, Some synthetic_home_base, Some c).
Proof.
  intros E Hto Hfrom Hc Hne. unfold classify_message, categorize.
  rewrite E, Hto, Hfrom, Hc. cbn [truthy andb negb length Nat.leb].
  unfold set_add, mem. cbn [existsb].
  assert (Hs : str_eqb synthetic_home_base c = false)
    by (apply str_eqb_neq; congruence).
  rewrite Hs. cbn [orb app length Nat.leb is_ride andb].
  destruct (Permutation_length_2_inv
              (Permutation_sym (set_iter_perm O [c; synthetic_home_base])))
    as [-> | ->]; auto.
Qed.

Lemma home_base_rule_witness :
  classify_message reverse_order (load_places scenario_places) going_message
  = (ride, Some (py "pittsburgh"), Some synthetic_home_base)
  \/ classify_message reverse_order (load_places scenario_places) going_message
     = (ride, Some synthetic_home_base, Some (py "pittsburgh")).
Proof.
  apply home_base_rule; try (vm_compute; reflexivity).
  vm_compute. discriminate.
Defined.

(** X20.  A message classified general comes out with every ride field
    absent, and processing it does not fail. *)
Theorem general_has_no_ride_fields (O : PySetOrder) (pm : dict) (today : date)
        (msg wa_date : str) :
  fst (fst (classify_message O pm msg)) = general ->
  process_message O pm today msg wa_date
  = Returned {| res_category := general;
                res_origin := None;
                res_destination := None;
                res_ride_date := None;
                res_ride_time := None;
                res_ride_type := None |}.
Proof.
  intros H. unfold process_message.
  destruct (classify_message_shape O pm msg) as [E | [a [b E]]];
    rewrite E in *; [reflexivity | discriminate H].
Qed.

Lemma general_has_no_ride_fields_witness :
  process_message insertion_order (load_places scenario_places) march_1
                  (py "hello everyone, happy Monday at 6pm tomorrow!")
                  (py "9999-12-31")
  = Returned {| res_category := general;
                res_origin := None;
                res_destination := None;
                res_ride_date := None;
                res_ride_time := None;
                res_ride_type := None |}.
Proof.
  apply general_has_no_ride_fields. vm_compute. reflexivity.
Defined.

End HomeBase.

(* ================================================================== *)
(** * The empty key *)

Section EmptyKey.

Lemma boundary_somewhere (text : str) :
  forall pre,
    word_opt (last_char pre) = false ->
    (exists c, In c text /\ is_word c = true) ->
    exists mid post,
      text = mid ++ post
      /\ boundary (last_char (pre ++ mid)) (hd_error post) = true.
Proof.
  induction text as [|x t IH]; intros pre Hpre [c [Hin Hc]]; [destruct Hin|].
  destruct (is_word x) eqn:Ex.
  - exists [], (x :: t). rewrite app_nil_r. split; [reflexivity|].
    unfold boundary. rewrite Hpre. simpl. exact Ex.
  - destruct Hin as [-> | Hin]; [congruence|].
    destruct (IH (pre ++ [x])) as [mid [post [-> B]]].
    + rewrite last_char_snoc. exact Ex.
    + exists c. auto.
    + exists (x :: mid), post. split; [reflexivity|].
      rewrite <- app_assoc in B. exact B.
Qed.

Lemma place_in_empty_key (text : str) :
  place_in [] text = true <-> exists c, In c text /\ is_word c = true.
Proof.
  rewrite place_in_spec. split.
  - intros [pre [post [-> [B _]]]]. unfold boundary in B. simpl in B.
    destruct (word_opt (last_char pre)) eqn:E1.
    + unfold last_char in E1. destruct (rev pre) as [|z r] eqn:Er;
        [discriminate E1|].
      exists z. split; [|exact E1]. apply in_or_app. left.
      apply in_rev. rewrite Er. left; reflexivity.
    + destruct post as [|z post]; [discriminate B|].
      exists z. split; [|exact B]. apply in_or_app. right. left; reflexivity.
  - intros H. destruct (boundary_somewhere text [] eq_refl H) as [mid [post [-> B]]].
    exists mid, post. split; [reflexivity|]. simpl in B.
    split; [exact B | rewrite app_nil_r; exact B].
Qed.

(** X21.  The empty string as a place matches every text that has a
    letter, a digit or an underscore, and no other text. *)
Theorem empty_place_matches_any_word (text : str) :
  place_in [] text = true <-> exists c, In c text /\ is_word c = true.
Proof. apply place_in_empty_key. Qed.

Lemma two_members (a b : str) (l : list str) :
  In a l -> In b l -> a <> b -> 2 <= length l.
Proof.
  intros Ha Hb Hab. destruct l as [|x [|y l]]; simpl in *;
    [destruct Ha | | lia].
  destruct Ha as [<- | []]. destruct Hb as [<- | []].
  contradiction Hab; reflexivity.
Qed.

(** X22.  When the gazetteer has the empty string as a key, as an
    empty line of the file makes it, with a canonical name other than
    the home base, every message with the word "to" and without the
    word "from" is classified ride. *)
Theorem empty_key_makes_rides (O : PySetOrder) (pm : dict) (v msg : str) :
  In ([], v) pm ->
  v <> synthetic_home_base ->
  place_in (py "to") (normalize_text msg) = true ->
  place_in (py "from") (normalize_text msg) = false ->
  fst (fst (classify_message O pm msg)) = ride.
Proof.
  intros Hkey Hv Hto Hfrom.
  destruct (classify_message_shape O pm msg) as [E | [a [b ->]]];
    [|reflexivity].
  exfalso. revert E. unfold classify_message.
  destruct (extract_first_pair_cases msg pm) as [N | [o [d [E' [Ho [Hd _]]]]]].
  - rewrite N. unfold categorize. rewrite Hto, Hfrom.
    cbn [truthy andb negb].
    set (found := count_unique_places (normalize_text msg) pm).
    assert (Hin : In v found).
    { unfold found, count_unique_places. apply fold_set_add_In. right.
      exists []. split; [exact Hkey|]. apply place_in_empty_key.
      apply place_in_spec in Hto. destruct Hto as [pre [post [-> _]]].
      exists "t"%char. split; [|reflexivity].
      apply in_or_app. right. left; reflexivity. }
    assert (H1 : (1 <=? length found) = true).
    { apply Nat.leb_le. destruct found; [destruct Hin | simpl; lia]. }
    rewrite H1.
    assert (H2 : (2 <=? length (set_add synthetic_home_base found)) = true).
    { apply Nat.leb_le.
      apply (two_members v synthetic_home_base); auto;
        apply set_add_In; auto. }
    rewrite H2. cbn [negb is_ride andb].
    destruct (set_iter O _) as [|x [|y r]]; discriminate.
  - rewrite E'. unfold categorize.
    destruct o as [|x o]; [contradiction Ho; reflexivity|].
    destruct d as [|y d]; [contradiction Hd; reflexivity|].
    simpl. discriminate.
Qed.

Lemma empty_key_makes_rides_witness :
  fst (fst (classify_message insertion_order
              (load_places (scenario_places ++ [blank_line]))
              (py "hello to all of you"))) = ride.
Proof.
  apply (empty_key_makes_rides insertion_order _ []);
    try (vm_compute; reflexivity).
  - vm_compute. auto 10.
  - discriminate.
Defined.

End EmptyKey.
